(** * novel-endless: a token-level n-gram Markov sentence generator

    Shallow embedding of [novelendless.py] and the properties of its two
    core routines, [build_model] and [generate_sentence].

    The morphological analyser (fugashi's [Tagger]) and Python's [random]
    module are external: the first is a parameter [tagger], the second a
    parameter random source threaded explicitly through the calls that
    mutate the module's global generator. *)

From Stdlib Require Import List String Ascii ZArith Lia Bool Arith.
Import ListNotations.

Local Open Scope string_scope.
Local Open Scope list_scope.
Local Open Scope Z_scope.

(** ** Python values and exceptions *)

Definition token := string.

(** A state is a tuple of tokens. *)
Definition state := list token.

(** [Counter]: insertion-ordered dict from token to an int count. *)
Definition Counter := list (token * Z).

(** [defaultdict(Counter)]: insertion-ordered dict from state to Counter. *)
Definition Model := list (state * Counter).

Inductive exn : Type :=
| IndexError
| ValueError_unpack    (* not enough values to unpack (expected 2, got 0) *)
| ValueError_weights   (* Total of weights must be greater than zero *)
| OverflowError.       (* int too large to convert to float *)

(** Outcome of running a piece of code: a value, an exception that
    propagates to the caller, or a loop that has not finished within the
    iterations granted. *)
Inductive result (A : Type) : Type :=
| Ok (a : A)
| Raise (e : exn)
| OutOfFuel.

Arguments Ok {A} a.
Arguments Raise {A} e.
Arguments OutOfFuel {A}.

Definition rbind {A B} (r : result A) (k : A -> result B) : result B :=
  match r with
  | Ok a => k a
  | Raise e => Raise e
  | OutOfFuel => OutOfFuel
  end.

Definition py_len {A} (l : list A) : Z := Z.of_nat (List.length l).

(** [l[i]] for an int [i]: negative indices count from the end. *)
Definition py_index {A} (l : list A) (i : Z) : result A :=
  let j := if i <? 0 then i + py_len l else i in
  if j <? 0 then Raise IndexError
  else match nth_error l (Z.to_nat j) with
       | Some x => Ok x
       | None => Raise IndexError
       end.

(** Normalisation of one slice bound against a length. *)
Definition py_clamp (len i : Z) : Z :=
  if i <? 0 then Z.max 0 (i + len) else Z.min i len.

(** [l[a:b]] *)
Definition py_slice {A} (l : list A) (a b : Z) : list A :=
  let a' := py_clamp (py_len l) a in
  let b' := py_clamp (py_len l) b in
  firstn (Z.to_nat (b' - a')) (skipn (Z.to_nat a') l).

(** [l[a:]] *)
Definition py_slice_from {A} (l : list A) (a : Z) : list A :=
  skipn (Z.to_nat (py_clamp (py_len l) a)) l.

(** [range(k)] *)
Definition py_range (k : Z) : list Z :=
  map Z.of_nat (seq 0 (Z.to_nat k)).

Fixpoint state_eqb (s1 s2 : state) : bool :=
  match s1, s2 with
  | [], [] => true
  | t1 :: r1, t2 :: r2 => String.eqb t1 t2 && state_eqb r1 r2
  | _, _ => false
  end.

(** [t in S] for a set of strings. *)
Definition in_set (t : token) (S : list token) : bool :=
  existsb (String.eqb t) S.

(** ** Settings *)

Definition N : Z := 5.
Definition MAX_LEN : Z := 1000.

Definition newline : string := String (ascii_of_nat 10) EmptyString.

Definition END_TOKENS : list token := ["。"; "！"; "？"; newline].

Definition START_EXCLUDE : list token :=
  ["が"; "に"; "で"; "から"; "を"; "は"; "て"; "と"; "も"; "へ"; "や"; "の";
   "より"; "しか"; "だけ"; "だり"].

(** ** The model as a dict of counters *)

Fixpoint counter_get (c : Counter) (t : token) : option Z :=
  match c with
  | [] => None
  | (t', k) :: c' => if String.eqb t' t then Some k else counter_get c' t
  end.

(** [c[t] += 1] on a Counter: a missing key reads as 0 and is appended. *)
Fixpoint counter_incr (c : Counter) (t : token) : Counter :=
  match c with
  | [] => [(t, 0 + 1)]
  | (t', k) :: c' =>
      if String.eqb t' t then (t', k + 1) :: c'
      else (t', k) :: counter_incr c' t
  end.

(** [model.get(state)] *)
Fixpoint model_get (m : Model) (s : state) : option Counter :=
  match m with
  | [] => None
  | (s', c) :: m' => if state_eqb s' s then Some c else model_get m' s
  end.

(** [model[state][nxt] += 1] on a defaultdict(Counter): a missing state
    gets a fresh empty Counter, appended in insertion order. *)
Fixpoint model_incr (m : Model) (s : state) (t : token) : Model :=
  match m with
  | [] => [(s, counter_incr [] t)]
  | (s', c) :: m' =>
      if state_eqb s' s then (s', counter_incr c t) :: m'
      else (s', c) :: model_incr m' s t
  end.

(** [model[state][nxt]] read back, with the Counter default of 0. *)
Definition model_count (m : Model) (s : state) (t : token) : Z :=
  match model_get m s with
  | Some c => match counter_get c t with Some k => k | None => 0 end
  | None => 0
  end.

(** [model.keys()] *)
Definition model_keys (m : Model) : list state := map fst m.

(** ** The analyser *)

(** What [token.feature] can be: an object, with its [pos] attribute when
    it has one (a tuple of strings), or a plain string of comma-separated
    fields (older dictionaries). *)
Inductive feature : Type :=
| FeatureObj (pos : option (list string))
| FeatureStr (s : string).

Record node : Type := { surface : string; node_feature : feature }.

(** [s.split(',')[0]] *)
Fixpoint split_comma_head (s : string) : string :=
  match s with
  | EmptyString => EmptyString
  | String c r =>
      if Ascii.eqb c ","%char then EmptyString
      else String c (split_comma_head r)
  end.

Definition PARTICLE : string := "助詞".

(** The body of the loop of [is_particle] for one analysed unit. *)
Definition node_is_particle (t : node) : bool :=
  match node_feature t with
  | FeatureObj (Some (p0 :: _)) => String.eqb p0 PARTICLE
  | FeatureObj _ => false
  | FeatureStr s => String.eqb (split_comma_head s) PARTICLE
  end.

(** ** The random module *)

(** The state of the module-level generator, re-seeding, and the index
    the generator yields for [random.choice] on a sequence of a given
    length and for [random.choices] on given weights. Each draw advances
    the generator. *)
Record random_source : Type := {
  rng : Type;
  rng_seed : Z -> rng;
  rng_choice : rng -> nat -> nat * rng;
  rng_choices : rng -> list Z -> nat * rng
}.

Section Analyser.

Variable tagger : string -> list node.

Definition is_particle (word : string) : bool :=
  existsb node_is_particle (tagger word).

Definition tokenize (text : string) : list token :=
  map surface (tagger text).

(** ** build_model *)

(** One iteration of the loop of [build_model]. *)
Definition build_step (tokens : list token) (n : Z)
    (acc : result Model) (i : Z) : result Model :=
  rbind acc (fun model =>
    let state := py_slice tokens i (i + n - 1) in
    rbind (py_index tokens (i + n - 1)) (fun nxt =>
      Ok (model_incr model state nxt))).

Definition build_model_tokens (tokens : list token) (n : Z) : result Model :=
  if py_len tokens <? n then Ok []
  else fold_left (build_step tokens n) (py_range (py_len tokens - n)) (Ok []).

Definition build_model (text : string) (n : Z) : result Model :=
  build_model_tokens (tokenize text) n.

Section Generator.

Variable R : random_source.

(** Code that reads and advances the generator and may raise. *)
Definition M (A : Type) : Type := rng R -> result (A * rng R).

Definition ret {A} (a : A) : M A := fun g => Ok (a, g).

Definition bind {A B} (c : M A) (k : A -> M B) : M B :=
  fun g => match c g with
           | Ok (a, g') => k a g'
           | Raise e => Raise e
           | OutOfFuel => OutOfFuel
           end.

Definition lift {A} (r : result A) : M A :=
  fun g => match r with
           | Ok a => Ok (a, g)
           | Raise e => Raise e
           | OutOfFuel => OutOfFuel
           end.

Notation "x <- c ;; k" := (bind c (fun x => k))
  (at level 61, c at next level, right associativity).

(** [random.seed(a)] *)
Definition random_seed (a : Z) : M unit := fun _ => Ok (tt, rng_seed R a).

(** [random.choice(seq)] *)
Definition random_choice {A} (seq : list A) : M A :=
  fun g =>
    match seq with
    | [] => Raise IndexError
    | _ :: _ =>
        let (i, g') := rng_choice R g (List.length seq) in
        match nth_error seq i with
        | Some x => Ok (x, g')
        | None => Raise IndexError
        end
    end.

Definition sum_weights (ws : list Z) : Z := fold_right Z.add 0 ws.

(** The least magnitude of an int that [int + 0.0] cannot convert to a
    float: halfway between the largest finite double, 2^1024 - 2^971, and
    2^1024, where rounding to nearest goes up. *)
Definition FLOAT_OVERFLOW : Z := 2 ^ 1024 - 2 ^ 970.

(** [random.choices(population, weights=weights, k=1)[0]]: the total of
    the accumulated weights is converted to a float
    ([total = cum_weights[-1] + 0.0]) before it is tested. *)
Definition random_choices1 {A} (population : list A) (weights : list Z) : M A :=
  fun g =>
    if FLOAT_OVERFLOW <=? Z.abs (sum_weights weights) then Raise OverflowError
    else if sum_weights weights <=? 0 then Raise ValueError_weights
    else
      let (i, g') := rng_choices R g weights in
      match nth_error population i with
      | Some x => Ok (x, g')
      | None => Raise IndexError
      end.

(** ** choose_next *)

Definition choose_next (counter : Counter) : M token :=
  match counter with
  | [] => fun _ => Raise ValueError_unpack
  | _ :: _ =>
      let tokens := map fst counter in
      let weights := map snd counter in
      random_choices1 tokens weights
  end.

(** ** generate_sentence *)

(** [[s for s in keys if s[0] not in END_TOKENS]] *)
Fixpoint start_candidates (keys : list state) : result (list state) :=
  match keys with
  | [] => Ok []
  | s :: keys' =>
      rbind (py_index s 0) (fun s0 =>
        rbind (start_candidates keys') (fun rest =>
          Ok (if negb (in_set s0 END_TOKENS) then s :: rest else rest)))
  end.

(** The candidate list: the filtered keys, or all keys when the filter
    leaves none. *)
Definition candidates_of (model : Model) : result (list state) :=
  rbind (start_candidates (model_keys model)) (fun filtered =>
    Ok (match filtered with
        | [] => model_keys model
        | _ :: _ => filtered
        end)).

(** The [while True] loop that draws the start state; [fuel] bounds the
    number of draws. *)
Fixpoint select_start (fuel : nat) (candidates : list state) : M state :=
  match fuel with
  | O => fun _ => OutOfFuel
  | S fuel' =>
      state <- random_choice candidates ;;
      s0 <- lift (py_index state 0) ;;
      if negb (is_particle s0) then ret state
      else select_start fuel' candidates
  end.

(** The [while len(out) < max_len] loop; [fuel] bounds the number of
    iterations. *)
Fixpoint extend (fuel : nat) (model : Model) (n max_len : Z)
    (state : state) (out : list token) : M (list token) :=
  if py_len out <? max_len then
    match fuel with
    | O => fun _ => OutOfFuel
    | S fuel' =>
        match model_get model state with
        | None => ret out
        | Some [] => ret out
        | Some ((_ :: _) as counter) =>
            nxt <- choose_next counter ;;
            let out := out ++ [nxt] in
            if in_set nxt END_TOKENS then ret out
            else extend fuel' model n max_len (py_slice_from out (- (n - 1))) out
        end
    end
  else ret out.

(** The part of [generate_sentence] from the candidate list to the end of
    the extension loop: the final value of [out]. Every iteration of the
    extension loop appends one token, so [max_len - len(out)] iterations
    are granted to it. *)
Definition generate_tokens (fuel : nat) (model : Model) (n max_len : Z)
    : M (list token) :=
  candidates <- lift (candidates_of model) ;;
  state <- select_start fuel candidates ;;
  let out := state in
  extend (Z.to_nat (max_len - py_len out)) model n max_len state out.

(** ["".join(out)] *)
Definition join (out : list token) : string := String.concat "" out.

Definition generate_sentence (fuel : nat) (model : Model) (n max_len : Z)
    (seed : option Z) : M string :=
  _ <- match seed with
       | Some a => random_seed a
       | None => ret tt
       end ;;
  match model with
  | [] => ret ""
  | _ :: _ =>
      out <- generate_tokens fuel model n max_len ;;
      ret (join out)
  end.

End Generator.

End Analyser.

Arguments ret {R A} a _.
Arguments bind {R A B} c k _.
Arguments lift {R A} r _.

(** The generator state a call of [generate_sentence] works from: the
    re-seeded one when a seed is given, the current one otherwise. *)
Definition seeded (R : random_source) (seed : option Z) (g : rng R) : rng R :=
  match seed with
  | Some a => rng_seed R a
  | None => g
  end.

(** ** Properties of models and of random sources *)

(** The data-model invariants: keys of length n-1, counts at least 1. *)
Definition model_wf (n : Z) (m : Model) : Prop :=
  forall s c, In (s, c) m ->
    py_len s = n - 1 /\ forall t k, In (t, k) c -> 1 <= k.

(** The counts listed under each state add up to less than the least
    total that cannot be converted to a float. *)
Definition counts_in_float_range (m : Model) : Prop :=
  forall s c, In (s, c) m -> sum_weights (map snd c) < FLOAT_OVERFLOW.

(** Window [i] of width [n] has state [s] and successor [t]. *)
Definition window_matches (tokens : list token) (n : Z) (s : state)
    (t : token) (i : Z) : bool :=
  state_eqb (py_slice tokens i (i + n - 1)) s &&
  match py_index tokens (i + n - 1) with
  | Ok x => String.eqb x t
  | _ => false
  end.

(** Number of window positions below [bound] at which state [s] is
    followed by [t]. *)
Definition window_count (tokens : list token) (n : Z) (s : state)
    (t : token) (bound : Z) : Z :=
  py_len (filter (window_matches tokens n s t) (py_range bound)).

(** The count the specification asks for: over every position at which a
    full window fits, the inclusive range [0, len(tokens) - n]. *)
Definition spec_window_count (tokens : list token) (n : Z) (s : state)
    (t : token) : Z :=
  window_count tokens n s t (py_len tokens - n + 1).

(** The documented behaviour of the library draws: the index returned is
    a position of the sequence ([_randbelow(len)], and [bisect] with
    [hi = len - 1]). *)
Definition in_range (R : random_source) : Prop :=
  (forall g len, (0 < len)%nat -> (fst (rng_choice R g len) < len)%nat) /\
  (forall g ws, ws <> [] -> (fst (rng_choices R g ws) < List.length ws)%nat).

(** The generator reached after [k] draws of [random.choice] on
    sequences of length [len]. *)
Fixpoint after_draws (R : random_source) (len : nat) (k : nat) (g : rng R)
    : rng R :=
  match k with
  | O => g
  | S k' => after_draws R len k' (snd (rng_choice R g len))
  end.

(** A source that, drawing repeatedly from sequences of one length,
    sooner or later returns each position: the deterministic content of
    drawing uniformly. *)
Definition recurrent (R : random_source) : Prop :=
  forall g len j, (j < len)%nat ->
    exists k, fst (rng_choice R (after_draws R len k g) len) = j.

(** A key that the filter of the candidate list keeps. *)
Definition starts_ok (s : state) : bool :=
  match s with
  | [] => false
  | s0 :: _ => negb (in_set s0 END_TOKENS)
  end.

(** A window of width [n] fits at position [i]. *)
Definition window_fits (tokens : list token) (n : Z) (i : nat) : Prop :=
  Z.of_nat i + n <= py_len tokens.

(** The state and successor read at window position [i], for a window
    that fits: what one iteration of [build_model] computes there. *)
Definition window_at (tokens : list token) (n : Z) (i : nat) : state * token :=
  (firstn (Z.to_nat (n - 1)) (skipn i tokens),
   nth (i + Z.to_nat (n - 1)) tokens "").

Definition count_window (tokens : list token) (n : Z) (m : Model) (i : nat)
    : Model :=
  model_incr m (fst (window_at tokens n i)) (snd (window_at tokens n i)).

(** ** Concrete collaborators used in examples *)

Definition unit_node (w : string) (f : feature) : node :=
  {| surface := w; node_feature := f |}.

Definition scenario_tokens : list token :=
  ["私"; "は"; "猫"; "だ"; "。"; "猫"; "は"; "可愛い"; "。"].

(** The corpus of the end-to-end scenario, units separated by spaces. *)
Definition scenario_corpus : string := "私 は 猫 だ 。 猫 は 可愛い 。".

(** A small dictionary: は and が are particles, で is the conjunctive
    form of the copula (an auxiliary verb), punctuation is tagged in the
    string format, anything else is a noun. *)
Definition pos_of (w : string) : feature :=
  if in_set w ["は"; "が"] then FeatureObj (Some ["助詞"; "係助詞"])
  else if String.eqb w "で" then FeatureObj (Some ["助動詞"])
  else if in_set w END_TOKENS then FeatureStr "補助記号,句点"
  else FeatureObj (Some ["名詞"; "普通名詞"]).

(** Pieces of a text between spaces; [cur] is the piece being read,
    reversed. *)
Fixpoint split_spaces (cur : list ascii) (s : string) : list string :=
  let flush := match cur with
               | [] => []
               | _ :: _ => [string_of_list_ascii (rev cur)]
               end in
  match s with
  | EmptyString => flush
  | String c r =>
      if Ascii.eqb c " "%char then flush ++ split_spaces [] r
      else split_spaces (c :: cur) r
  end.

(** A small analyser: units are the pieces between spaces, tagged by the
    dictionary. *)
Definition small_tagger (w : string) : list node :=
  map (fun t => unit_node t (pos_of t)) (split_spaces [] w).

(** The model of the end-to-end scenario. *)
Definition scenario_model : Model :=
  match build_model small_tagger scenario_corpus 3 with
  | Ok m => m
  | _ => []
  end.

(** A model that satisfies the data-model invariants for n = 2, with one
    count beyond the float range. *)
Definition huge_model : Model := [(["猫"], [("犬", 10 ^ 400)])].

(** A counting random source: the state is a counter, every draw returns
    the counter modulo the number of alternatives and advances it. *)
Definition cnt_seed (a : Z) : nat := Z.to_nat (Z.abs a).
Definition cnt_choice (g len : nat) : nat * nat := (Nat.modulo g len, S g).
Definition cnt_choices (g : nat) (ws : list Z) : nat * nat :=
  (Nat.modulo g (List.length ws), S g).

Definition counting : random_source :=
  {| rng := nat; rng_seed := cnt_seed;
     rng_choice := cnt_choice; rng_choices := cnt_choices |}.

(** ** Runs of the extension loop *)

(** Token [t] is a recorded successor of state [w]. *)
Definition recorded (model : Model) (w : state) (t : token) : Prop :=
  exists c, model_get model w = Some c /\ In t (map fst c).

(** The runs of the [while len(out) < max_len] loop that end normally,
    from the current [state] and [out] to the final [out]: the loop test
    fails, the state is a dead end, a terminator is sampled, or a token is
    appended and the loop goes on from the last n - 1 tokens. *)
Inductive ext_run (model : Model) (n max_len : Z)
    : state -> list token -> list token -> Prop :=
| run_full st out :
    max_len <= py_len out ->
    ext_run model n max_len st out out
| run_dead st out :
    py_len out < max_len ->
    model_get model st = None \/ model_get model st = Some [] ->
    ext_run model n max_len st out out
| run_end st out t :
    py_len out < max_len ->
    recorded model st t ->
    in_set t END_TOKENS = true ->
    ext_run model n max_len st out (out ++ [t])
| run_step st out t out' :
    py_len out < max_len ->
    recorded model st t ->
    in_set t END_TOKENS = false ->
    ext_run model n max_len (py_slice_from (out ++ [t]) (- (n - 1)))
      (out ++ [t]) out' ->
    ext_run model n max_len st out out'.

(** Every n consecutive tokens of [out] form a recorded transition: the
    first n - 1 are a state and the last is one of its successors. *)
Definition chained (model : Model) (n : Z) (out : list token) : Prop :=
  forall pre w t post,
    out = pre ++ w ++ t :: post -> py_len w = n - 1 -> recorded model w t.

(** Sum of all counts of a model. *)
Definition model_total (m : Model) : Z :=
  fold_right (fun e acc => sum_weights (map snd (snd e)) + acc) 0 m.

(** ** endless_stream *)

(** Whitespace in the sense of [str.isspace], read off the UTF-8 bytes:
    U+0009..U+000D, U+001C..U+001F and U+0020 (one byte); U+0085 and
    U+00A0 (two bytes); U+1680, U+2000..U+200A, U+2028, U+2029, U+202F,
    U+205F and U+3000 (three bytes). *)
Definition space1 (b1 : nat) : bool :=
  ((9 <=? b1) && (b1 <=? 13) || (28 <=? b1) && (b1 <=? 32))%nat.

Definition space2 (b1 b2 : nat) : bool :=
  ((b1 =? 194) && ((b2 =? 133) || (b2 =? 160)))%nat.

Definition space3 (b1 b2 b3 : nat) : bool :=
  ((b1 =? 225) && (b2 =? 154) && (b3 =? 128)
   || (b1 =? 226) && (b2 =? 128) &&
      ((128 <=? b3) && (b3 <=? 138) || (b3 =? 168) || (b3 =? 169) || (b3 =? 175))
   || (b1 =? 226) && (b2 =? 129) && (b3 =? 159)
   || (b1 =? 227) && (b2 =? 128) && (b3 =? 128))%nat.

(** [not s.strip()]: every character of [s] is whitespace. *)
Fixpoint blank (s : string) : bool :=
  match s with
  | EmptyString => true
  | String c1 r1 =>
      if space1 (nat_of_ascii c1) then blank r1
      else
        match r1 with
        | EmptyString => false
        | String c2 r2 =>
            if space2 (nat_of_ascii c1) (nat_of_ascii c2) then blank r2
            else
              match r2 with
              | EmptyString => false
              | String c3 r3 =>
                  if space3 (nat_of_ascii c1) (nat_of_ascii c2) (nat_of_ascii c3)
                  then blank r3
                  else false
              end
        end
  end.

(** What one iteration writes to standard output: the sentence character
    by character and a line break, or nothing for a blank sentence. The
    pause between characters is not modelled. *)
Definition emit (s : string) : string :=
  if negb (blank s) then s ++ newline else "".

(** How the first iterations of the endless loop leave it: still running
    with some generator state, ended by an exception of
    [generate_sentence], or stuck inside its start-state loop. *)
Inductive stream_status (R : random_source) : Type :=
| Running (g : rng R)
| Crashed (e : exn)
| Blocked.

Arguments Running {R} g.
Arguments Crashed {R} e.
Arguments Blocked {R}.

(** The first [iters] iterations of [endless_stream] from iteration index
    [i]: the text written to standard output after [stdout], and the
    status. Each sentence is generated with the default max_len and the
    seed [seed + i]; [fuel] bounds the draws of each start-state loop. *)
Fixpoint endless_stream (tagger : string -> list node) (R : random_source)
    (iters fuel : nat) (model : Model) (n : Z) (seed : option Z) (i : Z)
    (g : rng R) (stdout : string) : string * stream_status R :=
  match iters with
  | O => (stdout, Running g)
  | S iters' =>
      let seed_i := match seed with
                    | None => None
                    | Some a => Some (a + i)
                    end in
      match generate_sentence tagger R fuel model n MAX_LEN seed_i g with
      | Ok (s, g') =>
          endless_stream tagger R iters' fuel model n seed (i + 1) g'
            (stdout ++ emit s)
      | Raise e => (stdout, Crashed e)
      | OutOfFuel => (stdout, Blocked)
      end
  end.

(** ** load_corpus *)

(** The exceptions reading a path can raise. *)
Inductive os_error : Type :=
| FileNotFoundError
| IsADirectoryError
| PermissionError.

(** The file system as [load_corpus] sees it: [Path(p).is_dir()], the
    paths [p.glob("**/*.txt")] yields in order, and
    [read_text(encoding="utf-8", errors="ignore")]. *)
Record filesystem : Type := {
  is_dir : string -> bool;
  glob_txt : string -> list string;
  read_text : string -> os_error + string
}.

(** Reading files in order and appending their texts; the first failure
    propagates. *)
Fixpoint read_all (fs : filesystem) (files : list string)
    : os_error + list string :=
  match files with
  | [] => inr []
  | f :: files' =>
      match read_text fs f with
      | inl e => inl e
      | inr text =>
          match read_all fs files' with
          | inl e => inl e
          | inr texts => inr (text :: texts)
          end
      end
  end.

(** The list [texts] at the end of the loop over [paths]. *)
Fixpoint corpus_texts (fs : filesystem) (paths : list string)
    : os_error + list string :=
  match paths with
  | [] => inr []
  | p :: paths' =>
      match read_all fs (if is_dir fs p then glob_txt fs p else [p]) with
      | inl e => inl e
      | inr texts =>
          match corpus_texts fs paths' with
          | inl e => inl e
          | inr rest => inr (texts ++ rest)
          end
      end
  end.

Definition load_corpus (fs : filesystem) (paths : list string)
    : os_error + string :=
  match corpus_texts fs paths with
  | inl e => inl e
  | inr texts => inr (String.concat newline texts)
  end.

(** A file system with one directory and two text files. *)
Definition small_fs : filesystem :=
  {| is_dir := fun p => String.eqb p "novels";
     glob_txt := fun p =>
       if String.eqb p "novels" then ["novels/a.txt"; "novels/b.txt"] else [];
     read_text := fun p =>
       if String.eqb p "novels/a.txt" then inr "私 は 猫 だ 。"
       else if String.eqb p "novels/b.txt" then inr "猫 は 可愛い 。"
       else if String.eqb p "novels" then inl IsADirectoryError
       else inl FileNotFoundError |}.

(** * Properties *)

(** ** Python lists *)

Lemma state_eqb_eq (s1 s2 : state) : state_eqb s1 s2 = true <-> s1 = s2.
Proof.
  revert s2; induction s1 as [|t1 r1 IH]; intros [|t2 r2]; simpl;
    try (split; [discriminate | discriminate]); try tauto.
  rewrite andb_true_iff, String.eqb_eq, IH.
  split; [intros [-> ->]; reflexivity | intros H; injection H; auto].
Qed.

Lemma state_eqb_refl (s : state) : state_eqb s s = true.
Proof. apply state_eqb_eq; reflexivity. Qed.

Lemma state_eqb_neq (s1 s2 : state) : state_eqb s1 s2 = false <-> s1 <> s2.
Proof.
  rewrite <- state_eqb_eq. destruct (state_eqb s1 s2); split; congruence.
Qed.

Lemma py_len_app {A} (l1 l2 : list A) : py_len (l1 ++ l2) = py_len l1 + py_len l2.
Proof. unfold py_len. rewrite length_app. lia. Qed.

Lemma py_len_nonneg {A} (l : list A) : 0 <= py_len l.
Proof. unfold py_len. lia. Qed.

(** A non-negative index inside the list reads the element there. *)
Lemma py_index_nat {A} (l : list A) (i : nat) (x : A) :
  nth_error l i = Some x -> py_index l (Z.of_nat i) = Ok x.
Proof.
  intros H. unfold py_index.
  destruct (Z.ltb_spec (Z.of_nat i) 0) as [Hlt|_]; [lia|].
  destruct (Z.ltb_spec (Z.of_nat i) 0) as [Hlt|_]; [lia|].
  rewrite Nat2Z.id, H. reflexivity.
Qed.

(** A slice with bounds inside the list is a [firstn] of a [skipn]. *)
Lemma py_slice_nat {A} (l : list A) (a k : nat) :
  (a + k <= List.length l)%nat ->
  py_slice l (Z.of_nat a) (Z.of_nat a + Z.of_nat k) = firstn k (skipn a l).
Proof.
  intros H. unfold py_slice, py_clamp, py_len.
  destruct (Z.ltb_spec (Z.of_nat a) 0) as [Hlt|_]; [lia|].
  destruct (Z.ltb_spec (Z.of_nat a + Z.of_nat k) 0) as [Hlt|_]; [lia|].
  rewrite !Z.min_l by lia.
  replace (Z.of_nat a + Z.of_nat k - Z.of_nat a) with (Z.of_nat k) by lia.
  rewrite !Nat2Z.id. reflexivity.
Qed.

Lemma py_index_0 {A} (l : list A) :
  py_index l 0 = match l with [] => Raise IndexError | x :: _ => Ok x end.
Proof. unfold py_index. destruct l; reflexivity. Qed.

(** ** Counters and models *)

Lemma counter_get_incr (c : Counter) (t u : token) :
  match counter_get (counter_incr c t) u with Some k => k | None => 0 end =
  match counter_get c u with Some k => k | None => 0 end
  + (if String.eqb t u then 1 else 0).
Proof.
  induction c as [|[t' k] c IH]; simpl.
  - destruct (String.eqb t u); reflexivity.
  - destruct (String.eqb_spec t' t) as [->|Hne]; simpl.
    + destruct (String.eqb t u); lia.
    + destruct (String.eqb_spec t' u) as [->|Hne'].
      * destruct (String.eqb_spec t u); [congruence | lia].
      * exact IH.
Qed.

Lemma model_count_incr (m : Model) (s : state) (t : token) (s' : state) (u : token) :
  model_count (model_incr m s t) s' u =
  model_count m s' u + (if state_eqb s s' && String.eqb t u then 1 else 0).
Proof.
  unfold model_count.
  induction m as [|[s0 c] m IH]; simpl.
  - destruct (state_eqb s s'); simpl; [|reflexivity].
    destruct (String.eqb t u); reflexivity.
  - destruct (state_eqb s0 s) eqn:E0; simpl.
    + apply state_eqb_eq in E0; subst s0.
      destruct (state_eqb s s'); simpl; [|lia].
      apply counter_get_incr.
    + destruct (state_eqb s0 s') eqn:E1.
      * apply state_eqb_eq in E1; subst s'.
        assert (state_eqb s s0 = false) as ->
          by (apply state_eqb_neq; apply state_eqb_neq in E0; congruence).
        simpl. lia.
      * exact IH.
Qed.

Lemma counter_incr_In (c : Counter) (t u : token) (k : Z) :
  In (u, k) (counter_incr c t) ->
  In (u, k) c \/ (u = t /\ (k = 1 \/ In (u, k - 1) c)).
Proof.
  induction c as [|[t' k'] c IH]; simpl.
  - intros [H|[]]. injection H as <- <-. right; auto.
  - destruct (String.eqb_spec t' t) as [->|Hne]; simpl.
    + intros [H|H]; [|auto].
      injection H as <- <-. right. split; [reflexivity|].
      right. left. f_equal. lia.
    + intros [H|H]; [auto|].
      destruct (IH H) as [H'|[-> [->|H']]]; auto.
Qed.

Lemma counter_incr_nonempty (c : Counter) (t : token) : counter_incr c t <> [].
Proof.
  destruct c as [|[t' k] c]; simpl; [discriminate|].
  destruct (String.eqb t' t); discriminate.
Qed.

Lemma model_incr_In (m : Model) (s : state) (t : token) (s' : state) (c' : Counter) :
  In (s', c') (model_incr m s t) ->
  In (s', c') m \/ (s' = s /\ exists c, c' = counter_incr c t /\ (c = [] \/ In (s, c) m)).
Proof.
  induction m as [|[s0 c0] m IH]; simpl.
  - intros [H|[]]. injection H as <- <-. right. split; [reflexivity|].
    exists []. auto.
  - destruct (state_eqb s0 s) eqn:E0; simpl.
    + apply state_eqb_eq in E0; subst s0.
      intros [H|H]; [|auto].
      injection H as <- <-. right. split; [reflexivity|]. exists c0. auto.
    + intros [H|H]; [auto|].
      destruct (IH H) as [H'|[-> [c [-> [->|H']]]]]; auto.
      * right. split; [reflexivity|]. exists []. auto.
      * right. split; [reflexivity|]. exists c. auto.
Qed.

Lemma model_incr_nonempty (m : Model) (s : state) (t : token) : model_incr m s t <> [].
Proof.
  destruct m as [|[s0 c0] m]; simpl; [discriminate|].
  destruct (state_eqb s0 s); discriminate.
Qed.

Lemma model_get_In (m : Model) (s : state) (c : Counter) :
  model_get m s = Some c -> In (s, c) m.
Proof.
  induction m as [|[s0 c0] m IH]; simpl; [discriminate|].
  destruct (state_eqb s0 s) eqn:E0.
  - apply state_eqb_eq in E0; subst s0. intros H; injection H as ->. auto.
  - auto.
Qed.

(** ** The loop of build_model *)

Section BuildLoop.

Variable tokens : list token.
Variable n : Z.
Hypothesis n_pos : 1 <= n.

Lemma window_index (i : nat) :
  window_fits tokens n i ->
  py_index tokens (Z.of_nat i + n - 1) = Ok (snd (window_at tokens n i)).
Proof.
  unfold window_fits, py_len. intros Hi.
  replace (Z.of_nat i + n - 1) with (Z.of_nat (i + Z.to_nat (n - 1))) by lia.
  apply py_index_nat. simpl.
  apply nth_error_nth'. lia.
Qed.

Lemma window_slice (i : nat) :
  window_fits tokens n i ->
  py_slice tokens (Z.of_nat i) (Z.of_nat i + n - 1) = fst (window_at tokens n i).
Proof.
  unfold window_fits, py_len. intros Hi.
  replace (Z.of_nat i + n - 1) with (Z.of_nat i + Z.of_nat (Z.to_nat (n - 1))) by lia.
  apply py_slice_nat. lia.
Qed.

Lemma window_state_len (i : nat) :
  window_fits tokens n i -> py_len (fst (window_at tokens n i)) = n - 1.
Proof.
  unfold window_fits, py_len. intros Hi. simpl.
  rewrite length_firstn, length_skipn. lia.
Qed.

Lemma build_step_fits (m : Model) (i : nat) :
  window_fits tokens n i ->
  build_step tokens n (Ok m) (Z.of_nat i) = Ok (count_window tokens n m i).
Proof.
  intros Hi. unfold build_step, count_window. simpl.
  rewrite (window_index i Hi), (window_slice i Hi). reflexivity.
Qed.

Lemma build_loop_fits (l : list nat) (m : Model) :
  (forall i, In i l -> window_fits tokens n i) ->
  fold_left (build_step tokens n) (map Z.of_nat l) (Ok m) =
  Ok (fold_left (count_window tokens n) l m).
Proof.
  revert m; induction l as [|i l IH]; intros m Hl; cbn [fold_left map]; [reflexivity|].
  rewrite build_step_fits by (apply Hl; left; reflexivity).
  apply IH. intros j Hj. apply Hl. right; exact Hj.
Qed.

Lemma range_fits (i : nat) :
  In i (seq 0 (Z.to_nat (py_len tokens - n))) -> window_fits tokens n i.
Proof. rewrite in_seq. unfold window_fits. lia. Qed.

(** For n >= 1 the loop never raises: the model is the fold of the
    window counts over the positions [0 .. len(tokens) - n - 1]. *)
Lemma build_model_tokens_fold :
  build_model_tokens tokens n =
  Ok (fold_left (count_window tokens n) (seq 0 (Z.to_nat (py_len tokens - n))) []).
Proof.
  unfold build_model_tokens, py_range.
  destruct (Z.ltb_spec (py_len tokens) n) as [Hlt|Hge].
  - replace (Z.to_nat (py_len tokens - n)) with O by lia. reflexivity.
  - apply build_loop_fits. exact range_fits.
Qed.

Lemma window_matches_fits (s : state) (t : token) (i : nat) :
  window_fits tokens n i ->
  window_matches tokens n s t (Z.of_nat i) =
  state_eqb (fst (window_at tokens n i)) s &&
  String.eqb (snd (window_at tokens n i)) t.
Proof.
  intros Hi. unfold window_matches.
  rewrite (window_index i Hi), (window_slice i Hi). reflexivity.
Qed.

Lemma count_loop (l : list nat) (m : Model) (s : state) (t : token) :
  (forall i, In i l -> window_fits tokens n i) ->
  model_count (fold_left (count_window tokens n) l m) s t =
  model_count m s t +
  py_len (filter (window_matches tokens n s t) (map Z.of_nat l)).
Proof.
  revert m; induction l as [|i l IH]; intros m Hl; simpl.
  - unfold py_len; simpl; lia.
  - rewrite IH by (intros j Hj; apply Hl; right; exact Hj).
    unfold count_window at 1. rewrite model_count_incr.
    rewrite window_matches_fits by (apply Hl; left; reflexivity).
    destruct (state_eqb _ s && String.eqb _ t); unfold py_len; simpl; lia.
Qed.

(** What the code counts: the stored count of [t] under [s] is the number
    of positions [i] in [0, len(tokens) - n) whose window has state [s]
    and successor [t]. *)
Lemma build_model_tokens_counts :
  exists m, build_model_tokens tokens n = Ok m /\
    forall s t, model_count m s t = window_count tokens n s t (py_len tokens - n).
Proof.
  eexists. split; [apply build_model_tokens_fold|].
  intros s t. rewrite count_loop by exact range_fits.
  unfold window_count, py_range, model_count. simpl. lia.
Qed.

Lemma count_loop_wf (l : list nat) (m : Model) :
  (forall i, In i l -> window_fits tokens n i) ->
  model_wf n m -> model_wf n (fold_left (count_window tokens n) l m).
Proof.
  revert m; induction l as [|i l IH]; intros m Hl Hm; simpl; [exact Hm|].
  apply IH; [intros j Hj; apply Hl; right; exact Hj|].
  assert (Hi : window_fits tokens n i) by (apply Hl; left; reflexivity).
  intros s c Hin. unfold count_window in Hin.
  apply model_incr_In in Hin.
  destruct Hin as [Hin|[-> [c0 [-> Hc0]]]]; [exact (Hm s c Hin)|].
  split; [apply window_state_len; exact Hi|].
  intros u k Hu. apply counter_incr_In in Hu.
  assert (Hold : forall u k, In (u, k) c0 -> 1 <= k).
  { destruct Hc0 as [->|Hc0]; [intros ? ? []|].
    exact (proj2 (Hm _ _ Hc0)). }
  destruct Hu as [Hu|[_ [->|Hu]]]; [exact (Hold _ _ Hu) | lia |].
  specialize (Hold _ _ Hu). lia.
Qed.

Lemma build_model_tokens_wf :
  exists m, build_model_tokens tokens n = Ok m /\ model_wf n m.
Proof.
  eexists. split; [apply build_model_tokens_fold|].
  apply count_loop_wf; [exact range_fits | intros ? ? []].
Qed.

Lemma count_loop_nonempty_counters (l : list nat) (m : Model) :
  (forall s c, In (s, c) m -> c <> []) ->
  forall s c, In (s, c) (fold_left (count_window tokens n) l m) -> c <> [].
Proof.
  revert m; induction l as [|i l IH]; intros m Hm; simpl; [exact Hm|].
  apply IH. intros s c Hin. unfold count_window in Hin.
  apply model_incr_In in Hin.
  destruct Hin as [Hin|[_ [c0 [-> _]]]]; [exact (Hm s c Hin)|].
  apply counter_incr_nonempty.
Qed.

Lemma count_loop_nonempty (l : list nat) (m : Model) :
  l <> [] -> fold_left (count_window tokens n) l m <> [].
Proof.
  intros Hl. destruct (exists_last Hl) as [l' [i ->]].
  rewrite fold_left_app. simpl. apply model_incr_nonempty.
Qed.

(** What the code does at the boundary: the model is empty exactly when
    there are at most [n] tokens. *)
Lemma build_model_tokens_empty_iff :
  build_model_tokens tokens n = Ok [] <-> py_len tokens <= n.
Proof.
  rewrite build_model_tokens_fold. split.
  - intros H. injection H as H.
    destruct (Z.to_nat (py_len tokens - n)) eqn:E; [lia|].
    exfalso. revert H. apply count_loop_nonempty. simpl. discriminate.
  - intros H. replace (Z.to_nat (py_len tokens - n)) with O by lia. reflexivity.
Qed.

End BuildLoop.

(** ** C1, C2, C9: build_model *)

(** C1 (the code drops the last window). On the scenario corpus with
    n = 3 the window at position len(T) - n = 6, state (は, 可愛い) with
    successor 。, fits and is counted once by the specification, but the
    loop stops one position early and the model has no entry for it. *)
Theorem build_model_drops_last_window :
  tokenize small_tagger scenario_corpus = scenario_tokens /\
  exists m, build_model small_tagger scenario_corpus 3 = Ok m /\
    model_get m ["は"; "可愛い"] = None /\
    model_count m ["は"; "可愛い"] "。" = 0 /\
    spec_window_count scenario_tokens 3 ["は"; "可愛い"] "。" = 1.
Proof.
  split; [reflexivity|].
  eexists. split; [vm_compute; reflexivity|].
  repeat split; vm_compute; reflexivity.
Qed.

(** C2 (the code returns an empty model for exactly n tokens). Three
    tokens with n = 3 are not fewer than n, yet the model is empty. *)
Theorem build_model_empty_at_exactly_n :
  tokenize small_tagger "私 は 猫" = ["私"; "は"; "猫"] /\
  build_model small_tagger "私 は 猫" 3 = Ok [] /\
  ~ (py_len (tokenize small_tagger "私 は 猫") < 3).
Proof.
  repeat split; try (vm_compute; reflexivity).
  vm_compute. discriminate.
Qed.

(** C9. For n >= 2, [build_model] returns a model in which every state
    key has length exactly n - 1 and every recorded count is at least 1. *)
Theorem build_model_shape (tagger : string -> list node) (text : string) (n : Z) :
  2 <= n ->
  exists m, build_model tagger text n = Ok m /\
    forall s c, In (s, c) m ->
      py_len s = n - 1 /\ forall t k, In (t, k) c -> 1 <= k.
Proof.
  intros Hn. unfold build_model.
  destruct (build_model_tokens_wf (tokenize tagger text) n) as [m [Hm Hwf]];
    [lia|].
  exists m. split; [exact Hm | exact Hwf].
Qed.

(** The shape invariants on the scenario corpus with n = 3. *)
Lemma build_model_shape_witness :
  2 <= 3 /\
  exists m, build_model small_tagger scenario_corpus 3 = Ok m /\
    forall s c, In (s, c) m ->
      py_len s = 3 - 1 /\ forall t k, In (t, k) c -> 1 <= k.
Proof.
  split; [lia|].
  apply (build_model_shape small_tagger scenario_corpus 3). lia.
Defined.

(** ** The generator *)

Section GeneratorFacts.

Variable tagger : string -> list node.
Variable R : random_source.

Lemma bind_Ok {A B} (c : M R A) (k : A -> M R B) g b g' :
  bind c k g = Ok (b, g') ->
  exists a g1, c g = Ok (a, g1) /\ k a g1 = Ok (b, g').
Proof.
  unfold bind. destruct (c g) as [[a g1]| |]; try discriminate.
  intros H. exists a, g1. auto.
Qed.

Lemma bind_Raise {A B} (c : M R A) (k : A -> M R B) g e :
  bind c k g = Raise e ->
  c g = Raise e \/ exists a g1, c g = Ok (a, g1) /\ k a g1 = Raise e.
Proof.
  unfold bind. destruct (c g) as [[a g1]| |]; try discriminate.
  - intros H. right. exists a, g1. auto.
  - intros H. left. injection H as ->. reflexivity.
Qed.

Lemma lift_Ok {A} (r : result A) g a g' :
  @lift R A r g = Ok (a, g') -> r = Ok a /\ g' = g.
Proof.
  unfold lift. destruct r; try discriminate.
  intros H; injection H as -> ->. auto.
Qed.

Lemma rbind_Ok {A B} (r : result A) (k : A -> result B) b :
  rbind r k = Ok b -> exists a, r = Ok a /\ k a = Ok b.
Proof. destruct r; simpl; try discriminate. eauto. Qed.

Lemma random_choice_In {A} (seq : list A) g x g' :
  random_choice R seq g = Ok (x, g') -> In x seq.
Proof.
  unfold random_choice. destruct seq as [|y seq]; [discriminate|].
  destruct (rng_choice R g _) as [i g1].
  destruct (nth_error (y :: seq) i) eqn:E; [|discriminate].
  intros H; injection H as -> _. eapply nth_error_In; exact E.
Qed.

(** *** Start-state selection *)

Lemma start_candidates_filter (keys filtered : list state) :
  start_candidates keys = Ok filtered ->
  filtered = filter starts_ok keys /\ forall s, In s keys -> s <> [].
Proof.
  revert filtered; induction keys as [|s keys IH]; intros filtered; simpl.
  - intros H; injection H as <-. split; [reflexivity | intros ? []].
  - rewrite py_index_0. destruct s as [|s0 r]; simpl; [discriminate|].
    destruct (start_candidates keys) as [rest| |]; simpl; try discriminate.
    destruct (IH rest eq_refl) as [-> Hne].
    intros H; injection H as <-.
    split; [reflexivity|].
    intros s [<-|Hs]; [discriminate | auto].
Qed.

Lemma candidates_of_spec (model : Model) (cands : list state) :
  candidates_of model = Ok cands ->
  (forall s, In s cands -> In s (model_keys model)) /\
  (forall s, In s (model_keys model) -> s <> []) /\
  ((forall s, In s cands -> starts_ok s = true) \/
   (forall s, In s (model_keys model) -> starts_ok s = false)) /\
  (model <> [] -> cands <> []).
Proof.
  unfold candidates_of. intros H.
  apply rbind_Ok in H. destruct H as [filtered [Hf H]].
  apply start_candidates_filter in Hf. destruct Hf as [-> Hne].
  destruct (filter starts_ok (model_keys model)) as [|c0 cs] eqn:E;
    injection H as <-.
  - repeat split; auto.
    + right. intros s Hs. destruct (starts_ok s) eqn:Es; [|reflexivity].
      assert (Hin : In s (filter starts_ok (model_keys model)))
        by (apply filter_In; auto).
      rewrite E in Hin. destruct Hin.
    + destruct model; [congruence | discriminate].
  - rewrite <- E. split; [|split; [|split]].
    + intros s Hs. apply filter_In in Hs. tauto.
    + exact Hne.
    + left. intros s Hs. apply filter_In in Hs. tauto.
    + rewrite E. discriminate.
Qed.

Lemma select_start_spec (fuel : nat) (cands : list state) g st g' :
  select_start tagger R fuel cands g = Ok (st, g') ->
  In st cands /\ exists s0 r, st = s0 :: r /\ is_particle tagger s0 = false.
Proof.
  revert g; induction fuel as [|fuel IH]; intros g; simpl; [discriminate|].
  intros H. apply bind_Ok in H. destruct H as [s [g1 [Hc H]]].
  apply bind_Ok in H. destruct H as [s0 [g2 [Hi H]]].
  apply lift_Ok in Hi. destruct Hi as [Hi ->].
  destruct (is_particle tagger s0) eqn:Ep; simpl in H.
  - exact (IH _ H).
  - injection H as <- <-. split; [eapply random_choice_In; exact Hc|].
    rewrite py_index_0 in Hi. destruct s as [|t r]; [discriminate|].
    injection Hi as ->. eauto.
Qed.

(** *** The extension loop *)

Lemma extend_eq (fuel : nat) (model : Model) (n max_len : Z)
    (st : state) (out : list token) :
  extend R fuel model n max_len st out =
  if py_len out <? max_len then
    match fuel with
    | O => fun _ => OutOfFuel
    | S fuel' =>
        match model_get model st with
        | None => ret out
        | Some [] => ret out
        | Some ((_ :: _) as counter) =>
            bind (choose_next R counter) (fun nxt =>
              let out := out ++ [nxt] in
              if in_set nxt END_TOKENS then ret out
              else extend R fuel' model n max_len
                     (py_slice_from out (- (n - 1))) out)
        end
    end
  else ret out.
Proof. destruct fuel; reflexivity. Qed.

(** The loop only appends: the tokens it starts from stay in front. *)
Lemma extend_prefix (fuel : nat) (model : Model) (n max_len : Z) :
  forall st out g out' g',
    extend R fuel model n max_len st out g = Ok (out', g') ->
    exists suffix, out' = out ++ suffix.
Proof.
  induction fuel as [|fuel IH]; intros st out g out' g'; rewrite extend_eq;
    destruct (py_len out <? max_len);
    try (intros H; injection H as <- _; exists []; rewrite app_nil_r; reflexivity);
    try discriminate.
  destruct (model_get model st) as [[|e c]|];
    try (intros H; injection H as <- _; exists []; rewrite app_nil_r; reflexivity).
  intros H. apply bind_Ok in H. destruct H as [nxt [g1 [_ H]]]. cbv zeta in H.
  destruct (in_set nxt END_TOKENS).
  - injection H as <- _. eauto.
  - apply IH in H. destruct H as [suf ->]. rewrite <- app_assoc. eauto.
Qed.

(** The loop stops appending once [max_len] tokens are reached. *)
Lemma extend_len (fuel : nat) (model : Model) (n max_len : Z) :
  forall st out g out' g',
    extend R fuel model n max_len st out g = Ok (out', g') ->
    py_len out' <= Z.max max_len (py_len out).
Proof.
  induction fuel as [|fuel IH]; intros st out g out' g'; rewrite extend_eq;
    destruct (Z.ltb_spec (py_len out) max_len) as [Hlt|Hge];
    try (intros H; injection H as <- _; lia);
    try discriminate.
  destruct (model_get model st) as [[|e c]|];
    try (intros H; injection H as <- _; lia).
  intros H. apply bind_Ok in H. destruct H as [nxt [g1 [_ H]]]. cbv zeta in H.
  assert (Hlen : py_len (out ++ [nxt]) = py_len out + 1)
    by (rewrite py_len_app; reflexivity).
  destruct (in_set nxt END_TOKENS).
  - injection H as <- _. lia.
  - apply IH in H. lia.
Qed.

Lemma choose_next_fuel (counter : Counter) g :
  choose_next R counter g <> OutOfFuel.
Proof.
  destruct counter as [|e c]; [discriminate|].
  unfold choose_next, random_choices1.
  destruct (FLOAT_OVERFLOW <=? _); [discriminate|].
  destruct (sum_weights _ <=? 0); [discriminate|].
  destruct (rng_choices R g _) as [i g1].
  destruct (nth_error _ i); discriminate.
Qed.

(** Every iteration appends one token, so the max_len - len(out)
    iterations granted by [generate_tokens] are never used up: whatever
    the model and the random source, the extension loop ends. *)
Lemma extend_never_out_of_fuel (fuel : nat) (model : Model) (n max_len : Z) :
  forall st out g,
    (Z.to_nat (max_len - py_len out) <= fuel)%nat ->
    extend R fuel model n max_len st out g <> OutOfFuel.
Proof.
  induction fuel as [|fuel IH]; intros st out g Hfuel; rewrite extend_eq;
    destruct (Z.ltb_spec (py_len out) max_len) as [Hlt|Hge];
    try discriminate; [lia|].
  destruct (model_get model st) as [[|e c]|]; try discriminate.
  unfold bind.
  pose proof (choose_next_fuel (e :: c) g) as Hc.
  destruct (choose_next R (e :: c) g) as [[nxt g1]| |];
    [|discriminate|congruence].
  cbv zeta. destruct (in_set nxt END_TOKENS); [discriminate|].
  apply IH. rewrite py_len_app. unfold py_len at 2. simpl. lia.
Qed.

(** The unpacking in [choose_next] fails exactly on an empty counter. *)
Lemma choose_next_unpack (counter : Counter) g :
  choose_next R counter g = Raise ValueError_unpack <-> counter = [].
Proof.
  split; [|intros ->; reflexivity].
  destruct counter as [|e c]; [reflexivity|].
  unfold choose_next, random_choices1.
  destruct (FLOAT_OVERFLOW <=? _); [discriminate|].
  destruct (sum_weights _ <=? 0); [discriminate|].
  destruct (rng_choices R g _) as [i g1].
  destruct (nth_error _ i); discriminate.
Qed.

Lemma extend_no_unpack (fuel : nat) (model : Model) (n max_len : Z) :
  forall st out g,
    extend R fuel model n max_len st out g <> Raise ValueError_unpack.
Proof.
  induction fuel as [|fuel IH]; intros st out g; rewrite extend_eq;
    destruct (py_len out <? max_len); try discriminate.
  destruct (model_get model st) as [[|e c]|]; try discriminate.
  intros H. apply bind_Raise in H.
  destruct H as [H|[nxt [g1 [_ H]]]].
  - apply choose_next_unpack in H. discriminate.
  - cbv zeta in H. destruct (in_set nxt END_TOKENS); [discriminate|].
    exact (IH _ _ _ H).
Qed.

Lemma random_choice_no_unpack {A} (seq : list A) g :
  random_choice R seq g <> Raise ValueError_unpack.
Proof.
  unfold random_choice. destruct seq; [discriminate|].
  destruct (rng_choice R g _) as [i g1].
  destruct (nth_error _ i); discriminate.
Qed.

Lemma select_start_no_unpack (fuel : nat) (cands : list state) g :
  select_start tagger R fuel cands g <> Raise ValueError_unpack.
Proof.
  revert g; induction fuel as [|fuel IH]; intros g; simpl; [discriminate|].
  intros H. apply bind_Raise in H.
  destruct H as [H|[s [g1 [_ H]]]]; [exact (random_choice_no_unpack _ _ H)|].
  apply bind_Raise in H.
  destruct H as [H|[s0 [g2 [_ H]]]].
  - unfold lift in H. rewrite py_index_0 in H. destruct s; discriminate.
  - destruct (is_particle tagger s0); simpl in H; [exact (IH _ H) | discriminate].
Qed.

Lemma py_index_no_unpack {A} (l : list A) i : py_index l i <> Raise ValueError_unpack.
Proof.
  unfold py_index. destruct (_ <? 0); [discriminate|].
  destruct (nth_error _ _); discriminate.
Qed.

Lemma start_candidates_no_unpack (keys : list state) :
  start_candidates keys <> Raise ValueError_unpack.
Proof.
  induction keys as [|s keys IH]; simpl; [discriminate|].
  rewrite py_index_0. destruct s; simpl; [discriminate|].
  destruct (start_candidates keys) as [rest|e|]; simpl; try discriminate.
  congruence.
Qed.

Lemma generate_tokens_no_unpack fuel model n max_len g :
  generate_tokens tagger R fuel model n max_len g <> Raise ValueError_unpack.
Proof.
  unfold generate_tokens. intros H. apply bind_Raise in H.
  destruct H as [H|[cands [g1 [_ H]]]].
  - unfold lift, candidates_of in H.
    pose proof (start_candidates_no_unpack (model_keys model)) as Hs.
    destruct (start_candidates (model_keys model)); simpl in H; congruence.
  - apply bind_Raise in H.
    destruct H as [H|[st [g2 [_ H]]]]; [exact (select_start_no_unpack _ _ _ H)|].
    exact (extend_no_unpack _ _ _ _ _ _ _ H).
Qed.

(** A sentence that is returned non-empty was joined from the tokens
    [generate_tokens] produced from the (re-)seeded generator. *)
Lemma generate_sentence_tokens fuel model n max_len seed g s g' :
  generate_sentence tagger R fuel model n max_len seed g = Ok (s, g') ->
  s <> "" ->
  exists out,
    generate_tokens tagger R fuel model n max_len (seeded R seed g) = Ok (out, g') /\
    s = join out.
Proof.
  unfold generate_sentence. intros H Hs.
  apply bind_Ok in H. destruct H as [[] [g1 [Hseed H]]].
  assert (g1 = seeded R seed g) as ->.
  { destruct seed; injection Hseed as <-; reflexivity. }
  destruct model as [|e model]; [injection H as <- _; congruence|].
  apply bind_Ok in H. destruct H as [out [g2 [Ht H]]].
  injection H as <- <-. eauto.
Qed.

(** The tokens produced start with the accepted start state. *)
Lemma generate_tokens_start fuel model n max_len g out g' :
  generate_tokens tagger R fuel model n max_len g = Ok (out, g') ->
  exists cands st suffix s0 r,
    candidates_of model = Ok cands /\ In st cands /\
    st = s0 :: r /\ is_particle tagger s0 = false /\
    out = st ++ suffix /\ py_len out <= Z.max max_len (py_len st).
Proof.
  unfold generate_tokens. intros H.
  apply bind_Ok in H. destruct H as [cands [g1 [Hc H]]].
  apply lift_Ok in Hc. destruct Hc as [Hc ->].
  apply bind_Ok in H. destruct H as [st [g2 [Hs H]]].
  apply select_start_spec in Hs. destruct Hs as [Hin [s0 [r [Hst Hp]]]].
  pose proof (extend_len _ _ _ _ _ _ _ _ _ H) as Hlen.
  apply extend_prefix in H. destruct H as [suffix ->].
  exists cands, st, suffix, s0, r. auto 10.
Qed.

End GeneratorFacts.

(** ** C3, C4, C6, C8, C10: generate_sentence *)

(** C3 (the start-exclude set is never consulted). で is in
    [START_EXCLUDE], the analyser tags it as an auxiliary verb, not as a
    particle, and the sentence generated from the model of "で ある 。 猫"
    opens with it: start-state selection tests [is_particle] only. *)
Theorem start_exclude_not_checked :
  exists m,
    build_model small_tagger "で ある 。 猫" 3 = Ok m /\
    m = [(["で"; "ある"], [("。", 1)])] /\
    is_particle small_tagger "で" = false /\
    in_set "で" START_EXCLUDE = true /\
    generate_tokens small_tagger counting 1 m 3 MAX_LEN (cnt_seed 42)
      = Ok (["で"; "ある"; "。"], 44%nat) /\
    generate_sentence small_tagger counting 1 m 3 MAX_LEN (Some 42) 0%nat
      = Ok ("である。", 44%nat).
Proof.
  eexists. split; [vm_compute; reflexivity|].
  repeat split; vm_compute; reflexivity.
Qed.

(** C4, as stated, fails: with max_len = 1 and n = 3 the start state
    alone already contributes two tokens to the returned sentence. *)
Lemma max_len_below_start_state :
  generate_tokens small_tagger counting 1 scenario_model 3 1 (cnt_seed 0)
    = Ok (["私"; "は"], 1%nat) /\
  generate_sentence small_tagger counting 1 scenario_model 3 1 (Some 0) 0%nat
    = Ok ("私は", 1%nat) /\
  ~ (py_len ["私"; "は"] <= 1).
Proof.
  repeat split; try (vm_compute; reflexivity).
  vm_compute. intros H; apply H; reflexivity.
Qed.

(** C4 (amended). On a model whose state keys have length n - 1, with
    n >= 2, a returned sentence is the concatenation of at most
    max(max_len, n - 1) tokens: the n - 1 tokens of the start state are
    always used, and tokens are appended only while fewer than max_len
    have been collected. *)
Theorem sentence_token_bound (tagger : string -> list node) (R : random_source)
    (fuel : nat) (model : Model) (n max_len : Z) (seed : option Z)
    (g : rng R) (s : string) (g' : rng R) :
  2 <= n ->
  (forall key, In key (model_keys model) -> py_len key = n - 1) ->
  generate_sentence tagger R fuel model n max_len seed g = Ok (s, g') ->
  exists out,
    s = join out /\
    py_len out <= Z.max max_len (n - 1) /\
    (model <> [] ->
     generate_tokens tagger R fuel model n max_len (seeded R seed g) = Ok (out, g')).
Proof.
  intros Hn Hkeys H.
  destruct model as [|e model].
  - exists []. unfold generate_sentence, bind, random_seed, ret in H.
    assert (s = "") as -> by (destruct seed; simpl in H; congruence).
    repeat split; [unfold py_len; simpl; lia | congruence].
  - assert (Hgen : exists out,
        generate_tokens tagger R fuel (e :: model) n max_len (seeded R seed g)
          = Ok (out, g') /\ s = join out).
    { unfold generate_sentence in H.
      apply bind_Ok in H. destruct H as [[] [g1 [Hseed H]]].
      assert (g1 = seeded R seed g) as ->
        by (destruct seed; injection Hseed as <-; reflexivity).
      apply bind_Ok in H. destruct H as [out [g2 [Ht H]]].
      injection H as <- <-. eauto. }
    destruct Hgen as [out [Ht ->]].
    exists out. repeat split; auto.
    apply generate_tokens_start in Ht.
    destruct Ht as [cands [st [suffix [s0 [r [Hc [Hin [_ [_ [_ Hlen]]]]]]]]]].
    apply candidates_of_spec in Hc. destruct Hc as [Hsub _].
    rewrite (Hkeys st) in Hlen by (apply Hsub; exact Hin).
    exact Hlen.
Qed.

(** The bound on the scenario model with the default max_len. *)
Lemma sentence_token_bound_witness :
  exists out,
    "私は猫だ。" = join out /\
    py_len out <= Z.max MAX_LEN (3 - 1) /\
    (scenario_model <> [] ->
     generate_tokens small_tagger counting 1 scenario_model 3 MAX_LEN
       (seeded counting (Some 0) 0%nat) = Ok (out, 4%nat)).
Proof.
  apply (sentence_token_bound small_tagger counting 1 scenario_model 3 MAX_LEN
           (Some 0) 0%nat "私は猫だ。" 4%nat).
  - lia.
  - vm_compute. intros key H.
    repeat (destruct H as [<-|H]; [reflexivity|]). destruct H.
  - vm_compute. reflexivity.
Defined.

(** C6. With a seed given, [generate_sentence] re-seeds the generator
    before anything else, so two invocations with identical arguments
    return the same outcome whatever state the generator was in. *)
Theorem generate_sentence_seed_deterministic (tagger : string -> list node)
    (R : random_source) (fuel : nat) (model : Model) (n max_len : Z)
    (a : Z) (g1 g2 : rng R) :
  generate_sentence tagger R fuel model n max_len (Some a) g1 =
  generate_sentence tagger R fuel model n max_len (Some a) g2.
Proof. reflexivity. Qed.

(** C8. The first token of a non-empty returned sentence is not a
    terminator token, unless every state key of the model has a
    terminator as its first token. *)
Theorem start_token_not_terminator (tagger : string -> list node)
    (R : random_source) (fuel : nat) (model : Model) (n max_len : Z)
    (seed : option Z) (g : rng R) (s : string) (g' : rng R) :
  generate_sentence tagger R fuel model n max_len seed g = Ok (s, g') ->
  s <> "" ->
  exists t rest,
    generate_tokens tagger R fuel model n max_len (seeded R seed g)
      = Ok (t :: rest, g') /\
    s = join (t :: rest) /\
    (in_set t END_TOKENS = false \/
     forall key, In key (model_keys model) ->
       exists k0 r, key = k0 :: r /\ in_set k0 END_TOKENS = true).
Proof.
  intros H Hs.
  destruct (generate_sentence_tokens _ _ _ _ _ _ _ _ _ _ H Hs) as [out [Ht ->]].
  destruct (generate_tokens_start _ _ _ _ _ _ _ _ _ Ht)
    as [cands [st [suffix [s0 [r [Hc [Hin [-> [_ [-> _]]]]]]]]]].
  exists s0, (r ++ suffix). split; [exact Ht|]. split; [reflexivity|].
  apply candidates_of_spec in Hc. destruct Hc as [_ [Hne [[Hall|Hnone] _]]].
  - left. specialize (Hall _ Hin). unfold starts_ok in Hall.
    destruct (in_set s0 END_TOKENS); [discriminate | reflexivity].
  - right. intros key Hkey.
    specialize (Hnone _ Hkey). specialize (Hne _ Hkey).
    destruct key as [|k0 r0]; [congruence|].
    exists k0, r0. split; [reflexivity|]. unfold starts_ok in Hnone.
    destruct (in_set k0 END_TOKENS); [reflexivity | discriminate].
Qed.

(** The start-token policy on the scenario model. *)
Lemma start_token_not_terminator_witness :
  exists t rest,
    generate_tokens small_tagger counting 1 scenario_model 3 MAX_LEN
      (seeded counting (Some 0) 0%nat) = Ok (t :: rest, 4%nat) /\
    "私は猫だ。" = join (t :: rest) /\
    (in_set t END_TOKENS = false \/
     forall key, In key (model_keys scenario_model) ->
       exists k0 r, key = k0 :: r /\ in_set k0 END_TOKENS = true).
Proof.
  apply (start_token_not_terminator small_tagger counting 1 scenario_model 3
           MAX_LEN (Some 0) 0%nat "私は猫だ。" 4%nat).
  - vm_compute. reflexivity.
  - discriminate.
Defined.

(** C10. On a model produced by [build_model], every entry has at least
    one successor, [choose_next] fails to unpack exactly when it is given
    an empty counter, and no run of [generate_sentence] ends in that
    failure: the dead-end guard keeps empty counters away from it. *)
Theorem choose_next_never_unpacks_empty (tagger : string -> list node)
    (R : random_source) (text : string) (n : Z) (m : Model) :
  2 <= n ->
  build_model tagger text n = Ok m ->
  (forall s c, In (s, c) m -> c <> []) /\
  (forall counter g,
     choose_next R counter g = Raise ValueError_unpack <-> counter = []) /\
  (forall fuel n' max_len seed g,
     generate_sentence tagger R fuel m n' max_len seed g
       <> Raise ValueError_unpack).
Proof.
  intros Hn Hm. unfold build_model in Hm.
  rewrite build_model_tokens_fold in Hm by lia. injection Hm as <-.
  split; [|split].
  - apply count_loop_nonempty_counters. intros ? ? [].
  - apply choose_next_unpack.
  - intros fuel n' max_len seed g H.
    unfold generate_sentence in H. apply bind_Raise in H.
    destruct H as [H|[[] [g1 [_ H]]]]; [destruct seed; discriminate|].
    destruct (fold_left _ _ _) as [|e m]; [discriminate|].
    apply bind_Raise in H.
    destruct H as [H|[out [g2 [_ H]]]]; [|discriminate].
    exact (generate_tokens_no_unpack _ _ _ _ _ _ _ H).
Qed.

(** The sampling guard on the scenario model. *)
Lemma choose_next_never_unpacks_empty_witness :
  (forall s c, In (s, c) scenario_model -> c <> []) /\
  (forall counter g,
     choose_next counting counter g = Raise ValueError_unpack <-> counter = []) /\
  (forall fuel n' max_len seed g,
     generate_sentence small_tagger counting fuel scenario_model n' max_len seed g
       <> Raise ValueError_unpack).
Proof.
  apply (choose_next_never_unpacks_empty small_tagger counting scenario_corpus 3
           scenario_model).
  - lia.
  - vm_compute. reflexivity.
Defined.

(** ** C7: the end-to-end scenario *)

Section Scenario.

Variable tagger : string -> list node.
Variable R : random_source.
Hypothesis R_in_range : in_range R.

(** A counter with a single outcome yields that outcome. *)
Lemma choose_next_single (t : token) (k : Z) g :
  0 < k ->
  k < FLOAT_OVERFLOW ->
  choose_next R [(t, k)] g = Ok (t, snd (rng_choices R g [k])).
Proof.
  intros Hk Hfl. unfold choose_next, random_choices1.
  change (map snd [(t, k)]) with [k]. change (map fst [(t, k)]) with [t].
  change (sum_weights [k]) with (k + 0).
  destruct (Z.leb_spec FLOAT_OVERFLOW (Z.abs (k + 0))) as [Hov|_]; [lia|].
  destruct (Z.leb_spec (k + 0) 0) as [Hle|_]; [lia|].
  pose proof (proj2 R_in_range g [k]) as Hi.
  destruct (rng_choices R g [k]) as [i g1]. simpl in *.
  assert (i = O) as -> by (assert ([k] <> []) by discriminate; specialize (Hi H); lia).
  reflexivity.
Qed.

Lemma extend_step_single (fuel : nat) (model : Model) (n max_len : Z)
    (st : state) (out : list token) g (t : token) (k : Z) :
  py_len out < max_len ->
  model_get model st = Some [(t, k)] ->
  0 < k ->
  k < FLOAT_OVERFLOW ->
  extend R (S fuel) model n max_len st out g =
  if in_set t END_TOKENS then Ok (out ++ [t], snd (rng_choices R g [k]))
  else extend R fuel model n max_len
         (py_slice_from (out ++ [t]) (- (n - 1))) (out ++ [t])
         (snd (rng_choices R g [k])).
Proof.
  intros Hlen Hget Hk Hfl. rewrite extend_eq.
  destruct (Z.ltb_spec (py_len out) max_len) as [_|Hge]; [|lia].
  rewrite Hget. unfold bind. rewrite choose_next_single by assumption.
  cbv zeta. destruct (in_set t END_TOKENS); reflexivity.
Qed.

(** A run of [generate_sentence] is its start-state selection followed by
    the extension loop. *)
Lemma generate_sentence_from_start (fuel : nat) (model : Model)
    (n max_len : Z) (seed : option Z) g cands st g1 out g2 :
  model <> [] ->
  candidates_of model = Ok cands ->
  select_start tagger R fuel cands (seeded R seed g) = Ok (st, g1) ->
  extend R (Z.to_nat (max_len - py_len st)) model n max_len st st g1
    = Ok (out, g2) ->
  generate_sentence tagger R fuel model n max_len seed g = Ok (join out, g2).
Proof.
  intros Hne Hc Hsel Hext.
  unfold generate_sentence, generate_tokens.
  destruct model as [|e model]; [congruence|].
  unfold bind at 1.
  assert (Hseed : match seed with
                  | Some a => random_seed R a
                  | None => ret tt
                  end g = Ok (tt, seeded R seed g))
    by (destruct seed; reflexivity).
  rewrite Hseed. unfold bind, lift. rewrite Hc, Hsel, Hext. reflexivity.
Qed.

End Scenario.

(** C7, as stated, fails: in the scenario model the state (は, 猫) is
    followed only by だ; 可愛い follows (猫, は). *)
Lemma scenario_entry_ha_neko :
  exists m,
    build_model small_tagger scenario_corpus 3 = Ok m /\
    model_get m ["は"; "猫"] = Some [("だ", 1)] /\
    model_count m ["は"; "猫"] "可愛い" = 0 /\
    model_get m ["は"; "猫"] <> Some [("だ", 1); ("可愛い", 1)] /\
    model_get m ["は"; "猫"] <> Some [("可愛い", 1); ("だ", 1)].
Proof.
  eexists. split; [vm_compute; reflexivity|].
  repeat split; try (vm_compute; reflexivity); vm_compute; discriminate.
Qed.

(** C7 (amended). For a text tokenised into the scenario sequence and
    n = 3, every state of the built model has length 2 and is the state of
    a sliding window of the sequence; for the windows at positions 0 to 5
    the model has exactly the entries (私, は) -> {猫: 1},
    (は, 猫) -> {だ: 1}, (猫, だ) -> {。: 1}, (だ, 。) -> {猫: 1},
    (。, 猫) -> {は: 1} and (猫, は) -> {可愛い: 1}; and a generation
    whose start state is (私, は) returns exactly "私は猫だ。" (every
    counter it meets has a single outcome), for any max_len of at least
    5. *)
Theorem scenario_model_and_sentence (tagger : string -> list node)
    (text : string) :
  tokenize tagger text = scenario_tokens ->
  exists m,
    build_model tagger text 3 = Ok m /\
    (forall s c, In (s, c) m ->
       py_len s = 2 /\
       exists i, 0 <= i /\ i + 3 <= py_len scenario_tokens /\
                 s = py_slice scenario_tokens i (i + 3 - 1)) /\
    model_get m ["私"; "は"] = Some [("猫", 1)] /\
    model_get m ["は"; "猫"] = Some [("だ", 1)] /\
    model_get m ["猫"; "だ"] = Some [("。", 1)] /\
    model_get m ["だ"; "。"] = Some [("猫", 1)] /\
    model_get m ["。"; "猫"] = Some [("は", 1)] /\
    model_get m ["猫"; "は"] = Some [("可愛い", 1)] /\
    forall (R : random_source) fuel max_len seed g cands g1,
      in_range R ->
      5 <= max_len ->
      candidates_of m = Ok cands ->
      select_start tagger R fuel cands (seeded R seed g) = Ok (["私"; "は"], g1) ->
      exists g2,
        generate_sentence tagger R fuel m 3 max_len seed g = Ok ("私は猫だ。", g2).
Proof.
  intros Htok. unfold build_model. rewrite Htok.
  eexists. split; [vm_compute; reflexivity|].
  split; [|split; [|split; [|split; [|split; [|split; [|split]]]]]];
    try (vm_compute; reflexivity).
  - intros s c H.
    repeat (destruct H as [H|H];
            [injection H as <- _; split; [reflexivity|] | ]).
    + exists 0. repeat split; vm_compute; congruence.
    + exists 1. repeat split; vm_compute; congruence.
    + exists 2. repeat split; vm_compute; congruence.
    + exists 3. repeat split; vm_compute; congruence.
    + exists 4. repeat split; vm_compute; congruence.
    + exists 5. repeat split; vm_compute; congruence.
    + destruct H.
  - intros R fuel max_len seed g cands g1 HR Hmax Hc Hsel.
    eexists.
    change "私は猫だ。" with (join ["私"; "は"; "猫"; "だ"; "。"]).
    eapply generate_sentence_from_start; [discriminate | exact Hc | exact Hsel |].
    match goal with
    | |- extend _ ?k _ _ _ _ _ _ = _ =>
        assert (Hfuel : exists f, k = S (S (S f)))
          by (exists (Z.to_nat (max_len - 5)); unfold py_len; simpl; lia)
    end.
    destruct Hfuel as [f ->].
    rewrite (extend_step_single R HR _ _ _ _ _ _ _ "猫" 1);
      [| unfold py_len; simpl; lia | reflexivity | lia | reflexivity].
    cbn [in_set existsb String.eqb Ascii.eqb Bool.eqb orb END_TOKENS newline].
    rewrite (extend_step_single R HR _ _ _ _ _ _ _ "だ" 1);
      [| unfold py_len; simpl; lia | reflexivity | lia | reflexivity].
    cbn [in_set existsb String.eqb Ascii.eqb Bool.eqb orb END_TOKENS newline].
    rewrite (extend_step_single R HR _ _ _ _ _ _ _ "。" 1);
      [| unfold py_len; simpl; lia | reflexivity | lia | reflexivity].
    reflexivity.
Qed.

Lemma counting_in_range : in_range counting.
Proof.
  split.
  - intros g len Hlen. simpl. apply Nat.mod_upper_bound. lia.
  - intros g ws Hws. simpl. apply Nat.mod_upper_bound.
    destruct ws; [congruence | simpl; lia].
Qed.

Lemma counting_after_draws (len k g : nat) :
  after_draws counting len k g = (k + g)%nat.
Proof.
  revert g; induction k as [|k IH]; intros g; simpl; [reflexivity|].
  rewrite IH. lia.
Qed.

Lemma counting_recurrent : recurrent counting.
Proof.
  intros g len j Hj.
  exists (j + (len - Nat.modulo g len))%nat.
  rewrite counting_after_draws. simpl.
  symmetry. apply (Nat.mod_unique _ _ (S (Nat.div g len))); [exact Hj|].
  pose proof (Nat.div_mod_eq g len) as Hd.
  pose proof (Nat.mod_upper_bound g len) as Hu.
  nia.
Qed.

(** The scenario run with the small analyser and the counting source. *)
Lemma scenario_model_and_sentence_witness :
  tokenize small_tagger scenario_corpus = scenario_tokens /\
  exists g2,
    generate_sentence small_tagger counting 1 scenario_model 3 MAX_LEN
      (Some 0) 0%nat = Ok ("私は猫だ。", g2).
Proof.
  split; [reflexivity|].
  destruct (scenario_model_and_sentence small_tagger scenario_corpus eq_refl)
    as [m [Hm [_ [_ [_ [_ [_ [_ [_ Hgen]]]]]]]]].
  assert (m = scenario_model) as ->
    by (unfold scenario_model; rewrite Hm; reflexivity).
  eapply (Hgen counting 1%nat MAX_LEN (Some 0) 0%nat).
  - exact counting_in_range.
  - vm_compute. discriminate.
  - vm_compute. reflexivity.
  - vm_compute. reflexivity.
Defined.

(** ** C5: termination *)

Section Termination.

Variable tagger : string -> list node.
Variable R : random_source.
Hypothesis R_in_range : in_range R.

Lemma random_choice_draw {A} (seq : list A) g :
  seq <> [] ->
  exists x,
    nth_error seq (fst (rng_choice R g (List.length seq))) = Some x /\
    random_choice R seq g = Ok (x, snd (rng_choice R g (List.length seq))).
Proof.
  intros Hne. unfold random_choice.
  destruct seq as [|y seq]; [congruence|].
  pose proof (proj1 R_in_range g (List.length (y :: seq))) as Hi.
  destruct (rng_choice R g (List.length (y :: seq))) as [i g1]. simpl fst in *.
  assert (Hlt : (i < List.length (y :: seq))%nat) by (apply Hi; simpl; lia).
  apply nth_error_Some in Hlt.
  destruct (nth_error (y :: seq) i) as [x|]; [|congruence].
  exists x. auto.
Qed.

(** If the k-th further draw returns the position of an acceptable
    candidate, more than k draws are never needed. *)
Lemma select_start_hits (cands : list state) (j : nat) (st : state)
    (s0 : token) (r : list token) :
  (forall s, In s cands -> s <> []) ->
  nth_error cands j = Some st ->
  st = s0 :: r ->
  is_particle tagger s0 = false ->
  forall k g fuel,
    fst (rng_choice R (after_draws R (List.length cands) k g)
           (List.length cands)) = j ->
    (k < fuel)%nat ->
    exists st' g', select_start tagger R fuel cands g = Ok (st', g').
Proof.
  intros Hne Hj Hst Hp.
  assert (Hcands : cands <> []) by (destruct cands; [destruct j|]; discriminate).
  induction k as [|k IH]; intros g fuel Hk Hfuel;
    (destruct fuel as [|fuel]; [lia|]);
    simpl select_start; unfold bind;
    destruct (random_choice_draw cands g Hcands) as [st1 [Hnth ->]];
    assert (Hst1 : st1 <> []) by (apply Hne; eapply nth_error_In; exact Hnth);
    destruct st1 as [|t r1]; try congruence;
    unfold lift; rewrite py_index_0;
    destruct (is_particle tagger t) eqn:Et; simpl;
    try (unfold ret; eauto; fail).
  - simpl in Hk. rewrite Hk, Hj in Hnth. congruence.
  - apply IH; [exact Hk | lia].
Qed.

Lemma sum_weights_pos (ws : list Z) :
  ws <> [] -> (forall w, In w ws -> 1 <= w) -> 1 <= sum_weights ws.
Proof.
  unfold sum_weights.
  destruct ws as [|w ws]; [congruence|]. intros _ H.
  assert (Htail : 0 <= fold_right Z.add 0 ws).
  { induction ws as [|v ws IH]; simpl; [lia|].
    assert (1 <= v) by (apply H; simpl; auto).
    assert (0 <= fold_right Z.add 0 ws)
      by (apply IH; intros x [<-|Hx]; apply H; simpl; auto).
    lia. }
  simpl. assert (1 <= w) by (apply H; simpl; auto). lia.
Qed.

(** Sampling from a non-empty counter with positive counts whose total
    converts to a float succeeds. *)
Lemma choose_next_total (counter : Counter) g :
  counter <> [] ->
  (forall t k, In (t, k) counter -> 1 <= k) ->
  sum_weights (map snd counter) < FLOAT_OVERFLOW ->
  exists t g', choose_next R counter g = Ok (t, g').
Proof.
  intros Hne Hpos Hfl.
  assert (Hsum : 1 <= sum_weights (map snd counter)).
  { apply sum_weights_pos; [destruct counter; [congruence | discriminate]|].
    intros w Hw. apply in_map_iff in Hw. destruct Hw as [[t k] [<- Hin]].
    exact (Hpos t k Hin). }
  destruct counter as [|e c]; [congruence|].
  unfold choose_next, random_choices1.
  destruct (Z.leb_spec FLOAT_OVERFLOW (Z.abs (sum_weights (map snd (e :: c)))))
    as [Hov|_]; [lia|].
  destruct (Z.leb_spec (sum_weights (map snd (e :: c))) 0) as [Hle|_]; [lia|].
  pose proof (proj2 R_in_range g (map snd (e :: c))) as Hi.
  destruct (rng_choices R g (map snd (e :: c))) as [i g1]. simpl fst in Hi.
  assert (Hlt : (i < List.length (map fst (e :: c)))%nat).
  { rewrite length_map. rewrite length_map in Hi. apply Hi. discriminate. }
  apply nth_error_Some in Hlt.
  destruct (nth_error (map fst (e :: c)) i) as [t|]; [|congruence].
  eauto.
Qed.

(** The extension loop finishes within max_len - len(out) iterations. *)
Lemma extend_total (model : Model) (n max_len : Z) :
  (forall s c, In (s, c) model -> forall t k, In (t, k) c -> 1 <= k) ->
  counts_in_float_range model ->
  forall fuel st out g,
    (Z.to_nat (max_len - py_len out) <= fuel)%nat ->
    exists out' g', extend R fuel model n max_len st out g = Ok (out', g').
Proof.
  intros Hpos Hfl.
  induction fuel as [|fuel IH]; intros st out g Hfuel; rewrite extend_eq;
    destruct (Z.ltb_spec (py_len out) max_len) as [Hlt|Hge];
    try (unfold ret; eauto; fail); [lia|].
  destruct (model_get model st) as [[|e c]|] eqn:Eget;
    try (unfold ret; eauto; fail).
  apply model_get_In in Eget.
  destruct (choose_next_total (e :: c) g) as [nxt [g1 Hnxt]];
    [discriminate | exact (Hpos _ _ Eget) | exact (Hfl _ _ Eget) |].
  unfold bind. rewrite Hnxt. cbv zeta.
  destruct (in_set nxt END_TOKENS); [unfold ret; eauto|].
  apply IH. rewrite py_len_app. unfold py_len at 2. simpl. lia.
Qed.

Hypothesis R_recurrent : recurrent R.

Lemma select_start_total (cands : list state) (st : state) (s0 : token)
    (r : list token) g :
  (forall s, In s cands -> s <> []) ->
  In st cands ->
  st = s0 :: r ->
  is_particle tagger s0 = false ->
  exists fuel0, forall fuel, (fuel0 <= fuel)%nat ->
    exists st' g', select_start tagger R fuel cands g = Ok (st', g').
Proof.
  intros Hne Hin Hst Hp.
  destruct (In_nth_error _ _ Hin) as [j Hj].
  assert (Hlt : (j < List.length cands)%nat)
    by (apply nth_error_Some; congruence).
  destruct (R_recurrent g _ _ Hlt) as [k Hk].
  exists (S k). intros fuel Hfuel.
  eapply select_start_hits; eauto.
Qed.

End Termination.




(** * Further properties of the code *)

(** ** build_model: what the model holds *)

Lemma skipn_nth_cons {A} (d : A) (l : list A) (j : nat) :
  (j < List.length l)%nat -> skipn j l = nth j l d :: skipn (S j) l.
Proof.
  revert j; induction l as [|x l IH]; intros j Hj; simpl in Hj; [lia|].
  destruct j as [|j]; [reflexivity|].
  simpl. apply IH. lia.
Qed.

(** A window that fits splits the tokens around its state and successor. *)
Lemma window_at_split (tokens : list token) (n : Z) (i : nat) :
  1 <= n ->
  window_fits tokens n i ->
  exists a b,
    tokens = a ++ fst (window_at tokens n i) ++ snd (window_at tokens n i) :: b.
Proof.
  unfold window_fits, py_len. intros Hn Hi.
  exists (firstn i tokens), (skipn (S (i + Z.to_nat (n - 1))) tokens).
  unfold window_at. cbn [fst snd].
  rewrite <- (@skipn_nth_cons token "" tokens (i + Z.to_nat (n - 1))) by lia.
  rewrite Nat.add_comm, <- skipn_skipn.
  rewrite (firstn_skipn (Z.to_nat (n - 1)) (skipn i tokens)).
  symmetry. apply firstn_skipn.
Qed.

Lemma counter_incr_total (c : Counter) (t : token) :
  sum_weights (map snd (counter_incr c t)) = sum_weights (map snd c) + 1.
Proof.
  unfold sum_weights.
  induction c as [|[t' k] c IH]; simpl; [reflexivity|].
  destruct (String.eqb t' t); simpl; lia.
Qed.

Lemma model_incr_total (m : Model) (s : state) (t : token) :
  model_total (model_incr m s t) = model_total m + 1.
Proof.
  unfold model_total.
  induction m as [|[s' c] m IH]; simpl; [reflexivity|].
  destruct (state_eqb s' s); simpl.
  - rewrite counter_incr_total. lia.
  - rewrite IH. lia.
Qed.

Lemma counter_incr_keys (c : Counter) (t : token) :
  map fst (counter_incr c t) =
  if in_dec string_dec t (map fst c) then map fst c else map fst c ++ [t].
Proof.
  induction c as [|[t' k] c IH]; simpl; [reflexivity|].
  destruct (String.eqb_spec t' t) as [->|Hne]; simpl.
  - destruct (string_dec t t); [|congruence].
    reflexivity.
  - destruct (string_dec t' t); [congruence|].
    rewrite IH. destruct (in_dec string_dec t (map fst c)); reflexivity.
Qed.

Lemma counter_incr_NoDup (c : Counter) (t : token) :
  NoDup (map fst c) -> NoDup (map fst (counter_incr c t)).
Proof.
  intros H. rewrite counter_incr_keys.
  destruct (in_dec string_dec t (map fst c)) as [Hin|Hnin]; [exact H|].
  apply NoDup_app; [exact H | repeat constructor; intros [] |].
  intros x Hx [<-|[]]. exact (Hnin Hx).
Qed.

Lemma model_incr_keys (m : Model) (s : state) (t : token) :
  model_keys (model_incr m s t) =
  if in_dec (list_eq_dec string_dec) s (model_keys m)
  then model_keys m else model_keys m ++ [s].
Proof.
  unfold model_keys.
  induction m as [|[s' c] m IH]; simpl; [reflexivity|].
  destruct (state_eqb s' s) eqn:E; simpl.
  - apply state_eqb_eq in E. subst s'.
    destruct (list_eq_dec string_dec s s); [|congruence].
    reflexivity.
  - apply state_eqb_neq in E.
    destruct (list_eq_dec string_dec s' s); [congruence|].
    rewrite IH.
    destruct (in_dec (list_eq_dec string_dec) s (map fst m)); reflexivity.
Qed.

Lemma model_incr_NoDup (m : Model) (s : state) (t : token) :
  NoDup (model_keys m) -> NoDup (model_keys (model_incr m s t)).
Proof.
  intros H. rewrite model_incr_keys.
  destruct (in_dec (list_eq_dec string_dec) s (model_keys m)) as [Hin|Hnin];
    [exact H|].
  apply NoDup_app; [exact H | repeat constructor; intros [] |].
  intros x Hx [<-|[]]. exact (Hnin Hx).
Qed.

Section BuildLoopMore.

Variable tokens : list token.
Variable n : Z.
Hypothesis n_pos : 1 <= n.

Lemma count_loop_total (l : list nat) (m : Model) :
  model_total (fold_left (count_window tokens n) l m) =
  model_total m + py_len l.
Proof.
  revert m; induction l as [|i l IH]; intros m; simpl.
  - unfold py_len; simpl; lia.
  - rewrite IH. unfold count_window. rewrite model_incr_total.
    unfold py_len; simpl List.length; lia.
Qed.

Lemma count_loop_NoDup (l : list nat) (m : Model) :
  NoDup (model_keys m) ->
  (forall s c, In (s, c) m -> NoDup (map fst c)) ->
  NoDup (model_keys (fold_left (count_window tokens n) l m)) /\
  forall s c, In (s, c) (fold_left (count_window tokens n) l m) ->
    NoDup (map fst c).
Proof.
  revert m; induction l as [|i l IH]; intros m Hk Hc; simpl; [auto|].
  apply IH; [apply model_incr_NoDup; exact Hk|].
  intros s c Hin. unfold count_window in Hin.
  apply model_incr_In in Hin.
  destruct Hin as [Hin|[_ [c0 [-> Hc0]]]]; [exact (Hc s c Hin)|].
  apply counter_incr_NoDup.
  destruct Hc0 as [->|Hc0]; [constructor | exact (Hc _ _ Hc0)].
Qed.

Lemma count_loop_sound (l : list nat) (m : Model) :
  (forall i, In i l -> window_fits tokens n i) ->
  (forall s c t k, In (s, c) m -> In (t, k) c ->
     exists a b, tokens = a ++ s ++ t :: b) ->
  forall s c t k,
    In (s, c) (fold_left (count_window tokens n) l m) -> In (t, k) c ->
    exists a b, tokens = a ++ s ++ t :: b.
Proof.
  revert m; induction l as [|i l IH]; intros m Hl Hm; simpl; [exact Hm|].
  apply IH; [intros j Hj; apply Hl; right; exact Hj|].
  assert (Hi : window_fits tokens n i) by (apply Hl; left; reflexivity).
  intros s c t k Hin Ht. unfold count_window in Hin.
  apply model_incr_In in Hin.
  destruct Hin as [Hin|[-> [c0 [-> Hc0]]]]; [exact (Hm s c t k Hin Ht)|].
  apply counter_incr_In in Ht.
  assert (Hnew : forall k', In (t, k') c0 ->
            exists a b, tokens = a ++ fst (window_at tokens n i) ++ t :: b).
  { intros k' Hk'. destruct Hc0 as [->|Hc0]; [destruct Hk'|].
    exact (Hm _ _ _ _ Hc0 Hk'). }
  destruct Ht as [Ht|[-> Ht]]; [exact (Hnew _ Ht)|].
  destruct Ht as [_|Ht]; [|exact (Hnew _ Ht)].
  apply window_at_split; assumption.
Qed.

End BuildLoopMore.

(** X1. For n >= 1, [build_model] returns a model, and the count it
    stores for successor [t] under state [s] is the number of positions
    [i] in [range(len(tokens) - n)] with [tokens[i:i+n-1] == s] and
    [tokens[i+n-1] == t]. *)
Theorem build_model_counts (tagger : string -> list node) (text : string)
    (n : Z) :
  1 <= n ->
  exists m,
    build_model tagger text n = Ok m /\
    forall s t,
      model_count m s t =
      window_count (tokenize tagger text) n s t
        (py_len (tokenize tagger text) - n).
Proof.
  intros Hn. unfold build_model.
  apply build_model_tokens_counts. exact Hn.
Qed.

(** X1 on the scenario corpus with n = 3. *)
Lemma build_model_counts_witness :
  exists m,
    build_model small_tagger scenario_corpus 3 = Ok m /\
    forall s t,
      model_count m s t =
      window_count (tokenize small_tagger scenario_corpus) 3 s t
        (py_len (tokenize small_tagger scenario_corpus) - 3).
Proof. apply (build_model_counts small_tagger scenario_corpus 3). lia. Defined.

(** X2. For n >= 1, the model [build_model] returns has no state at all
    exactly when the text has at most [n] tokens. *)
Theorem build_model_empty_iff (tagger : string -> list node) (text : string)
    (n : Z) :
  1 <= n ->
  (build_model tagger text n = Ok [] <-> py_len (tokenize tagger text) <= n).
Proof.
  intros Hn. unfold build_model.
  apply build_model_tokens_empty_iff. exact Hn.
Qed.

(** X2 on three tokens with n = 3. *)
Lemma build_model_empty_iff_witness :
  build_model small_tagger "私 は 猫" 3 = Ok [] <->
  py_len (tokenize small_tagger "私 は 猫") <= 3.
Proof. apply (build_model_empty_iff small_tagger "私 は 猫" 3). lia. Defined.

(** X3. For n >= 1, the counts of the model add up to the number of loop
    iterations, [max(0, len(tokens) - n)]: every iteration adds exactly
    one to exactly one count. *)
Theorem build_model_total (tagger : string -> list node) (text : string)
    (n : Z) :
  1 <= n ->
  exists m,
    build_model tagger text n = Ok m /\
    model_total m = Z.max 0 (py_len (tokenize tagger text) - n).
Proof.
  intros Hn. unfold build_model.
  rewrite build_model_tokens_fold by exact Hn.
  eexists. split; [reflexivity|].
  rewrite count_loop_total. unfold py_len, model_total.
  rewrite length_seq. simpl. lia.
Qed.

(** X3 on the scenario corpus with n = 3. *)
Lemma build_model_total_witness :
  exists m,
    build_model small_tagger scenario_corpus 3 = Ok m /\
    model_total m = Z.max 0 (py_len (tokenize small_tagger scenario_corpus) - 3).
Proof. apply (build_model_total small_tagger scenario_corpus 3). lia. Defined.

(** X4. For n >= 1, the model is a proper dict of Counters: no state is
    listed twice among its keys and no token twice within one Counter, so
    a lookup finds the one entry of a state. *)
Theorem build_model_keys_unique (tagger : string -> list node) (text : string)
    (n : Z) :
  1 <= n ->
  exists m,
    build_model tagger text n = Ok m /\
    NoDup (model_keys m) /\
    (forall s c, In (s, c) m -> NoDup (map fst c)) /\
    (forall s c, In (s, c) m <-> model_get m s = Some c).
Proof.
  intros Hn. unfold build_model.
  rewrite build_model_tokens_fold by exact Hn.
  eexists. split; [reflexivity|].
  destruct (count_loop_NoDup (tokenize tagger text) n
              (seq 0 (Z.to_nat (py_len (tokenize tagger text) - n))) [])
    as [Hk Hc]; [constructor | intros ? ? [] |].
  split; [exact Hk|]. split; [exact Hc|].
  intros s c. split; [|apply model_get_In].
  revert Hk. generalize (fold_left (count_window (tokenize tagger text) n)
                (seq 0 (Z.to_nat (py_len (tokenize tagger text) - n))) []).
  intros m. induction m as [|[s' c'] m IH]; simpl; intros Hk Hin; [destruct Hin|].
  inversion Hk as [|? ? Hnin Hk']; subst.
  destruct Hin as [Heq|Hin].
  - injection Heq as -> ->. rewrite state_eqb_refl. reflexivity.
  - destruct (state_eqb s' s) eqn:E.
    + apply state_eqb_eq in E. subst s'. exfalso. apply Hnin.
      apply in_map_iff. exists (s, c). auto.
    + apply IH; assumption.
Qed.

(** X4 on the scenario corpus with n = 3. *)
Lemma build_model_keys_unique_witness :
  exists m,
    build_model small_tagger scenario_corpus 3 = Ok m /\
    NoDup (model_keys m) /\
    (forall s c, In (s, c) m -> NoDup (map fst c)) /\
    (forall s c, In (s, c) m <-> model_get m s = Some c).
Proof. apply (build_model_keys_unique small_tagger scenario_corpus 3). lia. Defined.

(** X5. For n >= 1, every transition the model records was read off the
    text: if [t] is listed under state [s], the tokens of [s] followed by
    [t] occur consecutively in the token sequence. *)
Theorem build_model_sound (tagger : string -> list node) (text : string)
    (n : Z) :
  1 <= n ->
  exists m,
    build_model tagger text n = Ok m /\
    forall s c t k, In (s, c) m -> In (t, k) c ->
      exists a b, tokenize tagger text = a ++ s ++ t :: b.
Proof.
  intros Hn. unfold build_model.
  rewrite build_model_tokens_fold by exact Hn.
  eexists. split; [reflexivity|].
  apply count_loop_sound; [exact Hn | apply range_fits |].
  intros ? ? ? ? [].
Qed.

(** X5 on the scenario corpus with n = 3. *)
Lemma build_model_sound_witness :
  exists m,
    build_model small_tagger scenario_corpus 3 = Ok m /\
    forall s c t k, In (s, c) m -> In (t, k) c ->
      exists a b, tokenize small_tagger scenario_corpus = a ++ s ++ t :: b.
Proof. apply (build_model_sound small_tagger scenario_corpus 3). lia. Defined.

(** ** generate_sentence: the shape of what is generated *)

Lemma build_model_tokens_sound (tokens : list token) (n : Z) :
  1 <= n ->
  exists m,
    build_model_tokens tokens n = Ok m /\
    model_wf n m /\
    forall w t, recorded m w t -> exists a b, tokens = a ++ w ++ t :: b.
Proof.
  intros Hn. rewrite build_model_tokens_fold by exact Hn.
  eexists. split; [reflexivity|].
  split; [apply count_loop_wf; [exact Hn | apply range_fits | intros ? ? []]|].
  intros w t [c [Hget Ht]].
  apply model_get_In in Hget.
  apply in_map_iff in Ht. destruct Ht as [[t' k] [Heq Ht]]. simpl in Heq. subst t'.
  revert Hget Ht.
  apply count_loop_sound; [exact Hn | apply range_fits |].
  intros ? ? ? ? [].
Qed.

Lemma suffix_same_length {A} (a b c d : list A) :
  a ++ b = c ++ d -> List.length b = List.length d -> a = c /\ b = d.
Proof.
  intros H Hlen.
  assert (Hac : List.length a = List.length c).
  { apply (f_equal (@List.length A)) in H. rewrite !length_app in H. lia. }
  revert c H Hac. induction a as [|x a IH]; intros [|y c] H Hac;
    simpl in *; try lia; [auto|].
  injection H as -> H. destruct (IH c H) as [-> ->]; [lia | auto].
Qed.

(** For n >= 2, [out[-(n - 1):]] consists of the last n - 1 tokens. *)
Lemma last_state_split (out : list token) (n : Z) :
  2 <= n ->
  n - 1 <= py_len out ->
  py_len (py_slice_from out (- (n - 1))) = n - 1 /\
  exists p, out = p ++ py_slice_from out (- (n - 1)).
Proof.
  unfold py_slice_from, py_clamp, py_len. intros Hn Hlen.
  destruct (Z.ltb_spec (- (n - 1)) 0) as [_|Hge]; [|lia].
  split.
  - rewrite length_skipn. lia.
  - eexists. symmetry. apply firstn_skipn.
Qed.

Lemma last_state_self (st : state) (n : Z) :
  2 <= n -> py_len st = n - 1 -> py_slice_from st (- (n - 1)) = st.
Proof.
  unfold py_slice_from, py_clamp, py_len. intros Hn Hlen.
  destruct (Z.ltb_spec (- (n - 1)) 0) as [_|Hge]; [|lia].
  replace (Z.to_nat (Z.max 0 (- (n - 1) + Z.of_nat (List.length st)))) with O by lia.
  reflexivity.
Qed.

Section Runs.

Variable tagger : string -> list node.
Variable R : random_source.

Lemma choose_next_In (counter : Counter) g t g' :
  choose_next R counter g = Ok (t, g') -> In t (map fst counter).
Proof.
  destruct counter as [|e c]; [discriminate|].
  unfold choose_next, random_choices1.
  destruct (FLOAT_OVERFLOW <=? _); [discriminate|].
  destruct (sum_weights _ <=? 0); [discriminate|].
  destruct (rng_choices R g _) as [i g1].
  destruct (nth_error (map fst (e :: c)) i) eqn:E; [|discriminate].
  intros H; injection H as <- _. eapply nth_error_In; exact E.
Qed.

(** Every normal end of the embedded loop is a run. *)
Lemma extend_ext_run (fuel : nat) (model : Model) (n max_len : Z) :
  forall st out g out' g',
    extend R fuel model n max_len st out g = Ok (out', g') ->
    ext_run model n max_len st out out'.
Proof.
  induction fuel as [|fuel IH]; intros st out g out' g'; rewrite extend_eq;
    destruct (Z.ltb_spec (py_len out) max_len) as [Hlt|Hge];
    try discriminate;
    try (intros H; injection H as <- _; apply run_full; exact Hge).
  destruct (model_get model st) as [[|e c]|] eqn:Eget;
    try (intros H; injection H as <- _; apply run_dead; auto).
  intros H. apply bind_Ok in H. destruct H as [nxt [g1 [Hc H]]]. cbv zeta in H.
  assert (Hrec : recorded model st nxt).
  { exists (e :: c). split; [exact Eget | eapply choose_next_In; exact Hc]. }
  destruct (in_set nxt END_TOKENS) eqn:Eend.
  - injection H as <- _. apply run_end; assumption.
  - eapply run_step; eauto.
Qed.

(** A run of [generate_tokens] is a start state of the candidate list
    followed by a run of the loop. *)
Lemma generate_tokens_run fuel model n max_len g out g' :
  generate_tokens tagger R fuel model n max_len g = Ok (out, g') ->
  exists cands st,
    candidates_of model = Ok cands /\ In st cands /\
    ext_run model n max_len st st out.
Proof.
  unfold generate_tokens. intros H.
  apply bind_Ok in H. destruct H as [cands [g1 [Hc H]]].
  apply lift_Ok in Hc. destruct Hc as [Hc ->].
  apply bind_Ok in H. destruct H as [st [g2 [Hs H]]].
  apply select_start_spec in Hs. destruct Hs as [Hin _].
  apply extend_ext_run in H. eauto.
Qed.

End Runs.

Section RunFacts.

Variable model : Model.
Variable n max_len : Z.
Hypothesis n_ge_2 : 2 <= n.

Lemma chained_snoc (out : list token) (t : token) :
  n - 1 <= py_len out ->
  recorded model (py_slice_from out (- (n - 1))) t ->
  chained model n out -> chained model n (out ++ [t]).
Proof.
  intros Hlen Hrec Hout pre w t' post Heq Hw.
  destruct (last_state_split out n n_ge_2 Hlen) as [Hst [p Hp]].
  destruct post as [|x post] using rev_ind.
  - replace (pre ++ w ++ [t']) with ((pre ++ w) ++ [t']) in Heq
      by (rewrite <- app_assoc; reflexivity).
    apply app_inj_tail in Heq. destruct Heq as [Heq <-].
    rewrite Hp in Heq.
    apply suffix_same_length in Heq; [|unfold py_len in *; lia].
    destruct Heq as [_ Heq]. rewrite <- Heq. exact Hrec.
  - clear IHpost.
    replace (pre ++ w ++ t' :: post ++ [x])
      with ((pre ++ w ++ t' :: post) ++ [x]) in Heq
      by (rewrite <- !app_assoc; reflexivity).
    apply app_inj_tail in Heq. destruct Heq as [Heq _].
    exact (Hout _ _ _ _ Heq Hw).
Qed.

Lemma ext_run_chained st out out' :
  ext_run model n max_len st out out' ->
  st = py_slice_from out (- (n - 1)) ->
  n - 1 <= py_len out ->
  chained model n out -> chained model n out'.
Proof.
  induction 1 as [st out _|st out _ _|st out t _ Hrec _
                  |st out t out' _ Hrec _ _ IH];
    intros Hst Hlen Hout; auto.
  - subst st. apply chained_snoc; assumption.
  - subst st. apply IH;
      [reflexivity | rewrite py_len_app; unfold py_len in *; simpl; lia |].
    apply chained_snoc; assumption.
Qed.

(** A run only appends, and a terminator among the appended tokens is
    the last of them. *)
Lemma ext_run_terminator st out out' :
  ext_run model n max_len st out out' ->
  exists suffix,
    out' = out ++ suffix /\
    forall pre t post,
      suffix = pre ++ t :: post -> in_set t END_TOKENS = true -> post = [].
Proof.
  induction 1 as [st out _|st out _ _|st out t _ _ Hend
                  |st out t out' _ _ Hend _ IH].
  - exists []. split; [rewrite app_nil_r; reflexivity|].
    intros [|? ?] ? ? H; discriminate.
  - exists []. split; [rewrite app_nil_r; reflexivity|].
    intros [|? ?] ? ? H; discriminate.
  - exists [t]. split; [reflexivity|].
    intros [|x pre] t' post H _; [injection H as _ <-; reflexivity|].
    injection H as _ H. destruct pre; discriminate.
  - destruct IH as [suffix [-> Hsuf]].
    exists (t :: suffix). split; [rewrite <- app_assoc; reflexivity|].
    intros [|x pre] t' post H Ht'.
    + injection H as <- _. congruence.
    + injection H as _ H. exact (Hsuf _ _ _ H Ht').
Qed.

(** Why a run stops. *)
Lemma ext_run_stop st out out' :
  ext_run model n max_len st out out' ->
  st = py_slice_from out (- (n - 1)) ->
  max_len <= py_len out' \/
  (exists body t,
     out' = body ++ [t] /\ py_len out <= py_len body /\
     in_set t END_TOKENS = true) \/
  model_get model (py_slice_from out' (- (n - 1))) = None \/
  model_get model (py_slice_from out' (- (n - 1))) = Some [].
Proof.
  induction 1 as [st out Hfull|st out _ Hdead|st out t _ _ Hend
                  |st out t out' _ _ _ _ IH];
    intros Hst.
  - left. exact Hfull.
  - right. right. subst st. exact Hdead.
  - right. left. exists out, t. repeat split; [lia | exact Hend].
  - destruct (IH eq_refl) as [H|[[body [t' [-> [Hlen Ht']]]]|H]]; auto.
    right. left. exists body, t'. repeat split; auto.
    rewrite py_len_app in Hlen. unfold py_len in *. simpl in Hlen. lia.
Qed.

End RunFacts.

Lemma scenario_keys_len :
  forall key, In key (model_keys scenario_model) -> py_len key = 3 - 1.
Proof.
  vm_compute. intros key H.
  repeat (destruct H as [<-|H]; [reflexivity|]). destruct H.
Qed.

Lemma scenario_run :
  generate_tokens small_tagger counting 1 scenario_model 3 MAX_LEN (cnt_seed 0)
    = Ok (["私"; "は"; "猫"; "だ"; "。"], 4%nat).
Proof. vm_compute. reflexivity. Qed.

(** X6. The first token of a non-empty returned sentence is not
    classified as a particle by [is_particle]: the start-state loop only
    leaves with such a state, and the sentence begins with it. *)
Theorem start_token_not_particle (tagger : string -> list node)
    (R : random_source) (fuel : nat) (model : Model) (n max_len : Z)
    (seed : option Z) (g : rng R) (s : string) (g' : rng R) :
  generate_sentence tagger R fuel model n max_len seed g = Ok (s, g') ->
  s <> "" ->
  exists t rest,
    generate_tokens tagger R fuel model n max_len (seeded R seed g)
      = Ok (t :: rest, g') /\
    s = join (t :: rest) /\
    is_particle tagger t = false.
Proof.
  intros H Hs.
  destruct (generate_sentence_tokens _ _ _ _ _ _ _ _ _ _ H Hs) as [out [Ht ->]].
  destruct (generate_tokens_start _ _ _ _ _ _ _ _ _ Ht)
    as [cands [st [suffix [s0 [r [_ [_ [-> [Hp [-> _]]]]]]]]]].
  exists s0, (r ++ suffix). auto.
Qed.

(** X6 on the scenario model. *)
Lemma start_token_not_particle_witness :
  exists t rest,
    generate_tokens small_tagger counting 1 scenario_model 3 MAX_LEN
      (seeded counting (Some 0) 0%nat) = Ok (t :: rest, 4%nat) /\
    "私は猫だ。" = join (t :: rest) /\
    is_particle small_tagger t = false.
Proof.
  apply (start_token_not_particle small_tagger counting 1 scenario_model 3
           MAX_LEN (Some 0) 0%nat "私は猫だ。" 4%nat).
  - vm_compute. reflexivity.
  - discriminate.
Defined.

(** X7. On a model whose state keys have length n - 1, with n >= 2, the
    generated tokens follow the model: in any n consecutive tokens of
    [out], the last one is listed in the Counter stored under the n - 1
    before it. *)
Theorem generated_tokens_chained (tagger : string -> list node)
    (R : random_source) (fuel : nat) (model : Model) (n max_len : Z)
    (g : rng R) (out : list token) (g' : rng R) :
  2 <= n ->
  (forall key, In key (model_keys model) -> py_len key = n - 1) ->
  generate_tokens tagger R fuel model n max_len g = Ok (out, g') ->
  forall pre w t post,
    out = pre ++ w ++ t :: post ->
    py_len w = n - 1 ->
    exists c, model_get model w = Some c /\ In t (map fst c).
Proof.
  intros Hn Hkeys H.
  apply generate_tokens_run in H. destruct H as [cands [st [Hc [Hin Hrun]]]].
  apply candidates_of_spec in Hc. destruct Hc as [Hsub _].
  assert (Hlen : py_len st = n - 1) by (apply Hkeys, Hsub, Hin).
  apply (ext_run_chained model n max_len Hn st st out Hrun).
  - symmetry. apply last_state_self; assumption.
  - lia.
  - intros pre w t post Heq Hw.
    apply (f_equal (@List.length token)) in Heq.
    rewrite !length_app in Heq. simpl in Heq. unfold py_len in *. lia.
Qed.

(** X7 on the scenario model. *)
Lemma generated_tokens_chained_witness :
  exists c, model_get scenario_model ["は"; "猫"] = Some c /\ In "だ" (map fst c).
Proof.
  apply (generated_tokens_chained small_tagger counting 1 scenario_model 3
           MAX_LEN (cnt_seed 0) ["私"; "は"; "猫"; "だ"; "。"] 4%nat
           ltac:(lia) scenario_keys_len scenario_run
           ["私"] ["は"; "猫"] "だ" ["。"]).
  - reflexivity.
  - reflexivity.
Defined.

(** X8. Generating from the model built from a text with the same
    n >= 2 only recombines the text: any n consecutive tokens of [out]
    occur consecutively, in that order, among the tokens of the text. *)
Theorem generated_ngrams_from_text (tagger : string -> list node)
    (R : random_source) (text : string) (fuel : nat) (m : Model)
    (n max_len : Z) (g : rng R) (out : list token) (g' : rng R) :
  2 <= n ->
  build_model tagger text n = Ok m ->
  generate_tokens tagger R fuel m n max_len g = Ok (out, g') ->
  forall pre w t post,
    out = pre ++ w ++ t :: post ->
    py_len w = n - 1 ->
    exists a b, tokenize tagger text = a ++ w ++ t :: b.
Proof.
  intros Hn Hm H pre w t post Heq Hw.
  destruct (build_model_tokens_sound (tokenize tagger text) n)
    as [m' [Hm' [Hwf Hsound]]]; [lia|].
  unfold build_model in Hm. rewrite Hm' in Hm. injection Hm as ->.
  apply Hsound.
  apply generate_tokens_run in H. destruct H as [cands [st [Hc [Hin Hrun]]]].
  apply candidates_of_spec in Hc. destruct Hc as [Hsub _].
  assert (Hlen : py_len st = n - 1).
  { specialize (Hsub _ Hin). unfold model_keys in Hsub.
    apply in_map_iff in Hsub. destruct Hsub as [[s c] [<- Hsc]].
    exact (proj1 (Hwf _ _ Hsc)). }
  apply (ext_run_chained m n max_len Hn st st out Hrun) with (pre := pre) (post := post).
  - symmetry. apply last_state_self; assumption.
  - lia.
  - intros pre0 w0 t0 post0 Heq0 Hw0.
    apply (f_equal (@List.length token)) in Heq0.
    rewrite !length_app in Heq0. simpl in Heq0. unfold py_len in *. lia.
  - exact Heq.
  - exact Hw.
Qed.

(** X8 on the scenario corpus. *)
Lemma generated_ngrams_from_text_witness :
  exists a b,
    tokenize small_tagger scenario_corpus = a ++ ["猫"; "だ"] ++ "。" :: b.
Proof.
  apply (generated_ngrams_from_text small_tagger counting scenario_corpus 1
           scenario_model 3 MAX_LEN (cnt_seed 0)
           ["私"; "は"; "猫"; "だ"; "。"] 4%nat) with (pre := ["私"; "は"]) (post := []).
  - lia.
  - vm_compute. reflexivity.
  - exact scenario_run.
  - reflexivity.
  - reflexivity.
Defined.

(** X9. The generated tokens are a state key of the model followed by
    the appended tokens, and among the appended tokens a terminator can
    only be the last one: sampling stops at the first terminator. *)
Theorem generated_terminator_last (tagger : string -> list node)
    (R : random_source) (fuel : nat) (model : Model) (n max_len : Z)
    (g : rng R) (out : list token) (g' : rng R) :
  generate_tokens tagger R fuel model n max_len g = Ok (out, g') ->
  exists st suffix,
    In st (model_keys model) /\
    out = st ++ suffix /\
    forall pre t post,
      suffix = pre ++ t :: post -> in_set t END_TOKENS = true -> post = [].
Proof.
  intros H.
  apply generate_tokens_run in H. destruct H as [cands [st [Hc [Hin Hrun]]]].
  apply candidates_of_spec in Hc. destruct Hc as [Hsub _].
  apply ext_run_terminator in Hrun. destruct Hrun as [suffix [-> Hsuf]].
  exists st, suffix. auto.
Qed.

(** X9 on the scenario model. *)
Lemma generated_terminator_last_witness :
  exists st suffix,
    In st (model_keys scenario_model) /\
    ["私"; "は"; "猫"; "だ"; "。"] = st ++ suffix /\
    forall pre t post,
      suffix = pre ++ t :: post -> in_set t END_TOKENS = true -> post = [].
Proof.
  apply (generated_terminator_last small_tagger counting 1 scenario_model 3
           MAX_LEN (cnt_seed 0) ["私"; "は"; "猫"; "だ"; "。"] 4%nat).
  exact scenario_run.
Defined.

(** X10. On a model whose state keys have length n - 1, with n >= 2, the
    extension loop stops only for one of its three reasons: [max_len]
    tokens are reached, the token just appended is a terminator, or the
    last n - 1 tokens are a dead end (no entry, or an empty Counter). *)
Theorem generated_stop_reason (tagger : string -> list node)
    (R : random_source) (fuel : nat) (model : Model) (n max_len : Z)
    (g : rng R) (out : list token) (g' : rng R) :
  2 <= n ->
  (forall key, In key (model_keys model) -> py_len key = n - 1) ->
  generate_tokens tagger R fuel model n max_len g = Ok (out, g') ->
  max_len <= py_len out \/
  (exists body t,
     out = body ++ [t] /\ n - 1 <= py_len body /\
     in_set t END_TOKENS = true) \/
  model_get model (py_slice_from out (- (n - 1))) = None \/
  model_get model (py_slice_from out (- (n - 1))) = Some [].
Proof.
  intros Hn Hkeys H.
  apply generate_tokens_run in H. destruct H as [cands [st [Hc [Hin Hrun]]]].
  apply candidates_of_spec in Hc. destruct Hc as [Hsub _].
  assert (Hlen : py_len st = n - 1) by (apply Hkeys, Hsub, Hin).
  apply ext_run_stop in Hrun; [|symmetry; apply last_state_self; assumption].
  destruct Hrun as [H|[[body [t [-> [Hb Ht]]]]|H]]; auto.
  right. left. exists body, t. repeat split; [lia | exact Ht].
Qed.

(** X10 on the scenario model. *)
Lemma generated_stop_reason_witness :
  MAX_LEN <= py_len ["私"; "は"; "猫"; "だ"; "。"] \/
  (exists body t,
     ["私"; "は"; "猫"; "だ"; "。"] = body ++ [t] /\ 3 - 1 <= py_len body /\
     in_set t END_TOKENS = true) \/
  model_get scenario_model
    (py_slice_from ["私"; "は"; "猫"; "だ"; "。"] (- (3 - 1))) = None \/
  model_get scenario_model
    (py_slice_from ["私"; "は"; "猫"; "だ"; "。"] (- (3 - 1))) = Some [].
Proof.
  apply (generated_stop_reason small_tagger counting 1 scenario_model 3
           MAX_LEN (cnt_seed 0) ["私"; "は"; "猫"; "だ"; "。"] 4%nat).
  - lia.
  - exact scenario_keys_len.
  - exact scenario_run.
Defined.

Lemma select_start_blocks (tagger : string -> list node) (R : random_source)
    (cands : list state) :
  in_range R ->
  cands <> [] ->
  (forall st, In st cands ->
     exists s0 r, st = s0 :: r /\ is_particle tagger s0 = true) ->
  forall fuel g, select_start tagger R fuel cands g = OutOfFuel.
Proof.
  intros HR Hne Hall.
  induction fuel as [|fuel IH]; intros g; [reflexivity|].
  simpl select_start. unfold bind.
  destruct (random_choice_draw R HR cands g Hne) as [st [Hnth ->]].
  destruct (Hall st (nth_error_In _ _ Hnth)) as [s0 [r [-> Hp]]].
  unfold lift. rewrite py_index_0, Hp. simpl. apply IH.
Qed.

(** X11. If the model is not empty and the first token of every
    candidate start state is classified as a particle, a call of
    [generate_sentence] never returns: however many draws the start-state
    loop is granted, it is still drawing. *)
Theorem generate_sentence_blocks (tagger : string -> list node)
    (R : random_source) (model : Model) (cands : list state) :
  in_range R ->
  model <> [] ->
  candidates_of model = Ok cands ->
  (forall st, In st cands ->
     exists s0 r, st = s0 :: r /\ is_particle tagger s0 = true) ->
  forall fuel n max_len seed g,
    generate_sentence tagger R fuel model n max_len seed g = OutOfFuel.
Proof.
  intros HR Hne Hc Hall fuel n max_len seed g.
  pose proof (candidates_of_spec _ _ Hc) as [_ [_ [_ Hcne]]].
  unfold generate_sentence, generate_tokens.
  destruct model as [|e model]; [congruence|].
  unfold bind at 1.
  assert (Hseed : match seed with
                  | Some a => random_seed R a
                  | None => ret tt
                  end g = Ok (tt, seeded R seed g))
    by (destruct seed; reflexivity).
  rewrite Hseed. unfold bind, lift. rewrite Hc.
  rewrite (select_start_blocks tagger R cands HR (Hcne Hne) Hall).
  reflexivity.
Qed.

(** X11 on a model all of whose states start with は or が. *)
Lemma generate_sentence_blocks_witness :
  generate_sentence small_tagger counting 1000
    [(["は"], [("が", 2)]); (["が"], [("は", 1)])] 2 MAX_LEN (Some 42) 0%nat
  = OutOfFuel.
Proof.
  apply (generate_sentence_blocks small_tagger counting
           [(["は"], [("が", 2)]); (["が"], [("は", 1)])] [["は"]; ["が"]]).
  - exact counting_in_range.
  - discriminate.
  - vm_compute. reflexivity.
  - intros st [<-|[<-|[]]]; eexists; eexists; split; reflexivity.
Defined.

Lemma start_candidates_empty_key (keys : list state) :
  In [] keys -> start_candidates keys = Raise IndexError.
Proof.
  induction keys as [|s keys IH]; intros Hin; [destruct Hin|].
  simpl. rewrite py_index_0. destruct s as [|s0 r]; [reflexivity|].
  destruct Hin as [Heq|Hin]; [discriminate|].
  simpl. rewrite (IH Hin). reflexivity.
Qed.

Lemma generate_sentence_empty_key (tagger : string -> list node)
    (R : random_source) (fuel : nat) (model : Model) (n max_len : Z)
    (seed : option Z) (g : rng R) :
  In [] (model_keys model) ->
  generate_sentence tagger R fuel model n max_len seed g = Raise IndexError.
Proof.
  intros Hin. unfold generate_sentence, generate_tokens.
  destruct model as [|e model]; [destruct Hin|].
  unfold bind at 1.
  assert (Hseed : match seed with
                  | Some a => random_seed R a
                  | None => ret tt
                  end g = Ok (tt, seeded R seed g))
    by (destruct seed; reflexivity).
  rewrite Hseed. unfold bind, lift, candidates_of.
  rewrite (start_candidates_empty_key _ Hin). reflexivity.
Qed.

(** X12. With n = 1 every state is the empty tuple: for a text of more
    than one token [build_model] returns a non-empty model, and every
    call of [generate_sentence] on it raises IndexError when it reads the
    first token of a key. *)
Theorem generate_after_build_n1 (tagger : string -> list node) (text : string) :
  1 < py_len (tokenize tagger text) ->
  exists m,
    build_model tagger text 1 = Ok m /\
    m <> [] /\
    forall (R : random_source) fuel n max_len seed (g : rng R),
      generate_sentence tagger R fuel m n max_len seed g = Raise IndexError.
Proof.
  intros Hlen. unfold build_model.
  destruct (build_model_tokens_wf (tokenize tagger text) 1) as [m [Hm Hwf]]; [lia|].
  exists m. split; [exact Hm|].
  assert (Hne : m <> []).
  { intros ->. apply build_model_tokens_empty_iff in Hm; lia. }
  split; [exact Hne|].
  intros R fuel n max_len seed g. apply generate_sentence_empty_key.
  destruct m as [|[s c] m]; [congruence|].
  left. simpl. destruct (Hwf s c) as [Hs _]; [left; reflexivity|].
  destruct s; [reflexivity | unfold py_len in Hs; simpl in Hs; lia].
Qed.

(** X12 on the scenario corpus. *)
Lemma generate_after_build_n1_witness :
  exists m,
    build_model small_tagger scenario_corpus 1 = Ok m /\
    m <> [] /\
    forall (R : random_source) fuel n max_len seed (g : rng R),
      generate_sentence small_tagger R fuel m n max_len seed g = Raise IndexError.
Proof.
  apply (generate_after_build_n1 small_tagger scenario_corpus).
  vm_compute. reflexivity.
Defined.

(** X13. For n >= 1 and a text of at most n tokens, the model is empty
    and [generate_sentence] returns the empty string at once, for every
    seed, leaving the generator as it was apart from the re-seeding. *)
Theorem short_text_empty_sentence (tagger : string -> list node)
    (text : string) (n : Z) :
  1 <= n ->
  py_len (tokenize tagger text) <= n ->
  exists m,
    build_model tagger text n = Ok m /\
    forall (R : random_source) fuel n' max_len seed (g : rng R),
      generate_sentence tagger R fuel m n' max_len seed g
        = Ok ("", seeded R seed g).
Proof.
  intros Hn Hlen. exists [].
  split; [apply build_model_tokens_empty_iff; assumption|].
  intros R fuel n' max_len [a|] g; reflexivity.
Qed.

(** X13 on three tokens with the default n = 5. *)
Lemma short_text_empty_sentence_witness :
  exists m,
    build_model small_tagger "私 は 猫" N = Ok m /\
    forall (R : random_source) fuel n' max_len seed (g : rng R),
      generate_sentence small_tagger R fuel m n' max_len seed g
        = Ok ("", seeded R seed g).
Proof.
  apply (short_text_empty_sentence small_tagger "私 は 猫" N).
  - vm_compute. discriminate.
  - vm_compute. discriminate.
Defined.

(** X14. On a model whose state keys have length n - 1, a max_len of at
    most n - 1 leaves no room for the loop: the tokens returned are
    exactly one state key of the model. *)
Theorem small_max_len_returns_state (tagger : string -> list node)
    (R : random_source) (fuel : nat) (model : Model) (n max_len : Z)
    (g : rng R) (out : list token) (g' : rng R) :
  (forall key, In key (model_keys model) -> py_len key = n - 1) ->
  max_len <= n - 1 ->
  generate_tokens tagger R fuel model n max_len g = Ok (out, g') ->
  In out (model_keys model).
Proof.
  intros Hkeys Hmax H.
  apply generate_tokens_start in H.
  destruct H as [cands [st [suffix [s0 [r [Hc [Hin [_ [_ [-> Hlen]]]]]]]]]].
  apply candidates_of_spec in Hc. destruct Hc as [Hsub _].
  specialize (Hsub _ Hin). specialize (Hkeys _ Hsub).
  rewrite py_len_app in Hlen.
  destruct suffix as [|x suffix]; [rewrite app_nil_r; exact Hsub|].
  unfold py_len in *. simpl in Hlen. lia.
Qed.

(** X14 on the scenario model with max_len = 1. *)
Lemma small_max_len_returns_state_witness :
  In ["私"; "は"] (model_keys scenario_model).
Proof.
  apply (small_max_len_returns_state small_tagger counting 1 scenario_model 3 1
           (cnt_seed 0) ["私"; "は"] 1%nat).
  - exact scenario_keys_len.
  - lia.
  - vm_compute. reflexivity.
Defined.

(** ** endless_stream *)

Lemma str_app_nil_r (s : string) : (s ++ "")%string = s.
Proof.
  induction s as [|c s IH]; simpl; [reflexivity | rewrite IH; reflexivity].
Qed.

Lemma str_app_assoc (a b c : string) :
  ((a ++ b) ++ c)%string = (a ++ (b ++ c))%string.
Proof. induction a as [|x a IH]; simpl; [reflexivity | rewrite IH; reflexivity]. Qed.

(** X15. The seed rule of a seeded stream: when the first [k] iterations
    from index [i] have gone through, iteration [k] writes what a call
    [generate_sentence(model, n=n, seed=seed + i + k)] returns on its own,
    whatever state the generator is in when that call is made. *)
Theorem endless_stream_next (tagger : string -> list node) (R : random_source)
    (fuel : nat) (model : Model) (n a : Z) (s : string) (g0 g' : rng R) :
  forall (k : nat) (i : Z) (g : rng R) (stdout out : string) (st : rng R),
    endless_stream tagger R k fuel model n (Some a) i g stdout
      = (out, Running st) ->
    generate_sentence tagger R fuel model n MAX_LEN
      (Some (a + (i + Z.of_nat k))) g0 = Ok (s, g') ->
    endless_stream tagger R (S k) fuel model n (Some a) i g stdout
      = ((out ++ emit s)%string, Running g').
Proof.
  induction k as [|k IH]; intros i g stdout out st Hrun Hgen.
  - simpl in Hrun. injection Hrun as <- _.
    replace (i + Z.of_nat 0) with i in Hgen by lia.
    cbn [endless_stream].
    replace (generate_sentence tagger R fuel model n MAX_LEN (Some (a + i)) g)
      with (generate_sentence tagger R fuel model n MAX_LEN (Some (a + i)) g0)
      by reflexivity.
    rewrite Hgen. reflexivity.
  - cbn [endless_stream] in Hrun |- *.
    destruct (generate_sentence tagger R fuel model n MAX_LEN (Some (a + i)) g)
      as [[s1 g1]| |]; try discriminate.
    apply (IH (i + 1) g1 _ out st); [exact Hrun|].
    replace (i + 1 + Z.of_nat k) with (i + Z.of_nat (S k)) by lia.
    exact Hgen.
Qed.

(** X15 on the scenario model: iteration 2 of the stream seeded with 5. *)
Lemma endless_stream_next_witness :
  endless_stream small_tagger counting 3 2 scenario_model 3 (Some 5) 0 0%nat ""
    = (("私は猫だ。" ++ newline ++ "猫だ。" ++ newline ++ emit "猫だ。")%string,
       @Running counting 9%nat).
Proof.
  apply (endless_stream_next small_tagger counting 2 scenario_model 3 5
           "猫だ。" 100%nat 9%nat 2 0 0%nat ""
           ("私は猫だ。" ++ newline ++ "猫だ。" ++ newline)%string 9%nat).
  - vm_compute. reflexivity.
  - vm_compute. reflexivity.
Defined.

(** X16. On an empty model the stream writes nothing, however long it
    runs: every sentence is the empty string, which is skipped, and the
    loop goes on. With X13 this is what the stream does for a text of at
    most n tokens. *)
Theorem endless_stream_silent (tagger : string -> list node)
    (R : random_source) (text : string) (n : Z) :
  1 <= n ->
  py_len (tokenize tagger text) <= n ->
  exists m,
    build_model tagger text n = Ok m /\
    forall iters fuel seed i (g : rng R) stdout,
      exists st,
        endless_stream tagger R iters fuel m n seed i g stdout
          = (stdout, Running st).
Proof.
  intros Hn Hlen. exists [].
  split; [apply build_model_tokens_empty_iff; assumption|].
  induction iters as [|iters IH]; intros fuel seed i g stdout.
  - exists g. reflexivity.
  - cbn [endless_stream].
    assert (Hgen : forall sd,
               generate_sentence tagger R fuel [] n MAX_LEN sd g
               = Ok ("", seeded R sd g))
      by (intros [x|]; reflexivity).
    rewrite Hgen.
    change (emit "") with "". rewrite str_app_nil_r.
    apply IH.
Qed.

(** X16 on three tokens with the default n = 5. *)
Lemma endless_stream_silent_witness :
  exists m,
    build_model small_tagger "私 は 猫" N = Ok m /\
    forall iters fuel seed i (g : rng counting) stdout,
      exists st,
        endless_stream small_tagger counting iters fuel m N seed i g stdout
          = (stdout, Running st).
Proof.
  apply (endless_stream_silent small_tagger counting "私 は 猫" N).
  - vm_compute. discriminate.
  - vm_compute. discriminate.
Defined.

(** ** load_corpus *)

Lemma join_app (sep : string) (a b : list string) :
  a <> [] -> b <> [] ->
  String.concat sep (a ++ b) =
  (String.concat sep a ++ sep ++ String.concat sep b)%string.
Proof.
  intros Ha Hb. induction a as [|x a IH]; [congruence|].
  destruct a as [|y a].
  - simpl. destruct b; [congruence | reflexivity].
  - change ((x :: y :: a) ++ b) with (x :: (y :: a) ++ b).
    change (String.concat sep (x :: (y :: a) ++ b))
      with (x ++ sep ++ String.concat sep ((y :: a) ++ b))%string.
    rewrite IH by discriminate.
    change (String.concat sep (x :: y :: a))
      with (x ++ sep ++ String.concat sep (y :: a))%string.
    rewrite !str_app_assoc. reflexivity.
Qed.

Lemma read_all_error (fs : filesystem) (files : list string) :
  (exists e, read_all fs files = inl e) <->
  (exists f e, In f files /\ read_text fs f = inl e).
Proof.
  induction files as [|f files IH]; simpl.
  - split; [intros [e H]; discriminate | intros [f [e [[] _]]]].
  - destruct (read_text fs f) as [e|text] eqn:Ef.
    + split; [intros _; exists f, e; auto | intros _; exists e; reflexivity].
    + destruct (read_all fs files) as [e|texts].
      * split; [|intros _; exists e; reflexivity].
        intros _. destruct (proj1 IH) as [f' [e' [Hin He']]]; [eauto|].
        exists f', e'. auto.
      * split; [intros [e H]; discriminate|].
        intros [f' [e' [[<-|Hin] He']]]; [congruence|].
        destruct (proj2 IH) as [e'' H]; [eauto | discriminate].
Qed.

Lemma corpus_texts_error (fs : filesystem) (paths : list string) :
  (exists e, corpus_texts fs paths = inl e) <->
  (exists p f e,
     In p paths /\
     In f (if is_dir fs p then glob_txt fs p else [p]) /\
     read_text fs f = inl e).
Proof.
  induction paths as [|p paths IH]; simpl.
  - split; [intros [e H]; discriminate | intros [p [f [e [[] _]]]]].
  - pose proof (read_all_error fs (if is_dir fs p then glob_txt fs p else [p]))
      as Hp.
    destruct (read_all fs (if is_dir fs p then glob_txt fs p else [p]))
      as [e|texts].
    + split; [|intros _; exists e; reflexivity].
      intros _. destruct (proj1 Hp) as [f [e' [Hin He']]]; [eauto|].
      exists p, f, e'. auto.
    + destruct (corpus_texts fs paths) as [e|rest].
      * split; [|intros _; exists e; reflexivity].
        intros _. destruct (proj1 IH) as [p' [f [e' [Hin H]]]]; [eauto|].
        exists p', f, e'. tauto.
      * split; [intros [e H]; discriminate|].
        intros [p' [f [e' [[<-|Hin] [Hf He']]]]].
        -- destruct (proj2 Hp) as [e'' H]; [eauto | discriminate].
        -- destruct (proj2 IH) as [e'' H]; [eauto 6 | discriminate].
Qed.

(** X17. [load_corpus] is all or nothing: it raises exactly when one of
    the files it has to read (a path that is not a directory, or a file
    the glob of a directory yields) cannot be read; no text is skipped
    and no partial corpus is returned. *)
Theorem load_corpus_error_iff (fs : filesystem) (paths : list string) :
  (exists e, load_corpus fs paths = inl e) <->
  (exists p f e,
     In p paths /\
     In f (if is_dir fs p then glob_txt fs p else [p]) /\
     read_text fs f = inl e).
Proof.
  rewrite <- corpus_texts_error. unfold load_corpus.
  destruct (corpus_texts fs paths) as [e|texts].
  - split; intros _; exists e; reflexivity.
  - split; intros [e H]; discriminate.
Qed.

Lemma corpus_texts_app (fs : filesystem) (ps qs : list string) ts1 ts2 :
  corpus_texts fs ps = inr ts1 ->
  corpus_texts fs qs = inr ts2 ->
  corpus_texts fs (ps ++ qs) = inr (ts1 ++ ts2).
Proof.
  revert ts1; induction ps as [|p ps IH]; intros ts1 H1 H2; simpl in *.
  - injection H1 as <-. exact H2.
  - destruct (read_all fs (if is_dir fs p then glob_txt fs p else [p]))
      as [e|texts]; [discriminate|].
    destruct (corpus_texts fs ps) as [e|rest]; [discriminate|].
    injection H1 as <-. rewrite (IH rest eq_refl H2).
    rewrite app_assoc. reflexivity.
Qed.

Lemma corpus_texts_plain (fs : filesystem) (ps : list string) ts p :
  corpus_texts fs ps = inr ts ->
  In p ps -> is_dir fs p = false -> ts <> [].
Proof.
  revert ts; induction ps as [|q ps IH]; intros ts H Hin Hp; [destruct Hin|].
  simpl in H.
  destruct (read_all fs (if is_dir fs q then glob_txt fs q else [q]))
    as [e|texts] eqn:Er; [discriminate|].
  destruct (corpus_texts fs ps) as [e|rest]; [discriminate|].
  injection H as <-.
  destruct Hin as [->|Hin].
  - rewrite Hp in Er. simpl in Er.
    destruct (read_text fs p); [discriminate|].
    injection Er as <-. discriminate.
  - specialize (IH rest eq_refl Hin Hp).
    destruct texts; [exact IH | discriminate].
Qed.

(** X18. Loading two lists of paths in one call gives the two corpora
    joined by one line break, provided each list names at least one plain
    file (so that each contributes a text). *)
Theorem load_corpus_app (fs : filesystem) (ps qs : list string)
    (c1 c2 : string) (p q : string) :
  load_corpus fs ps = inr c1 ->
  load_corpus fs qs = inr c2 ->
  In p ps -> is_dir fs p = false ->
  In q qs -> is_dir fs q = false ->
  load_corpus fs (ps ++ qs) = inr (c1 ++ newline ++ c2)%string.
Proof.
  unfold load_corpus. intros H1 H2 Hp Hpd Hq Hqd.
  destruct (corpus_texts fs ps) as [e|ts1] eqn:E1; [discriminate|].
  destruct (corpus_texts fs qs) as [e|ts2] eqn:E2; [discriminate|].
  injection H1 as <-. injection H2 as <-.
  rewrite (corpus_texts_app fs ps qs ts1 ts2 E1 E2).
  rewrite join_app; [reflexivity | |].
  - exact (corpus_texts_plain fs ps ts1 p E1 Hp Hpd).
  - exact (corpus_texts_plain fs qs ts2 q E2 Hq Hqd).
Qed.

(** X18 on the two files of the small file system. *)
Lemma load_corpus_app_witness :
  load_corpus small_fs (["novels/a.txt"] ++ ["novels/b.txt"])
    = inr ("私 は 猫 だ 。" ++ newline ++ "猫 は 可愛い 。")%string.
Proof.
  apply (load_corpus_app small_fs ["novels/a.txt"] ["novels/b.txt"]
           "私 は 猫 だ 。" "猫 は 可愛い 。" "novels/a.txt" "novels/b.txt").
  - reflexivity.
  - reflexivity.
  - left; reflexivity.
  - reflexivity.
  - left; reflexivity.
  - reflexivity.
Defined.
